(** * ObjectTraker: interactive object tracker driving four fins over a serial link

    A shallow embedding of [ObjectTraker.py].  The module-level globals of the
    script form the state of a small state/exception/output monad; the calls
    into OpenCV, pyserial and the console are recorded as a trace of effects;
    what the outside world answers (frames, tracker results, pointer events,
    keys) is an input of the model.  Python's [float] is IEEE 754 binary64 and
    is modelled by the Standard Library's [SpecFloat] with [prec = 53] and
    [emax = 1024]. *)

From Stdlib Require Import ZArith Lia List String Ascii Bool.
From Stdlib Require Import Floats.SpecFloat DecimalString.
From Stdlib Require DecimalPos DecimalZ.
Import ListNotations.
Open Scope Z_scope.

(* ================================================================== *)
(** ** Python values: exceptions, integers and floats                  *)
(* ================================================================== *)

Inductive exn : Type :=
| TypeError          (* unpacking [None] *)
| ValueError         (* [int(nan)] *)
| ZeroDivisionError
| OverflowError
| CvError.           (* [cv2.error], raised by OpenCV on a bad argument *)

Inductive res (A : Type) : Type :=
| Ret (a : A)
| Raise (e : exn).
Arguments Ret {A} a.
Arguments Raise {A} e.

Definition res_bind {A B} (r : res A) (k : A -> res B) : res B :=
  match r with
  | Ret a => k a
  | Raise e => Raise e
  end.

Module PyFloat.

Definition prec : Z := 53.
Definition emax : Z := 1024.

Definition float := spec_float.

(** An integer seen as an unrounded binary number [z * 2^0]. *)
Definition exact (z : Z) : float :=
  match z with
  | Z0 => S754_zero false
  | Zpos p => S754_finite false p 0
  | Zneg p => S754_finite true p 0
  end.

(** [float(z)]: round to nearest, ties to even; too large raises. *)
Definition float_of_int (z : Z) : res float :=
  match binary_normalize prec emax z 0 false with
  | S754_infinity _ => Raise OverflowError
  | f => Ret f
  end.

(** [a / b] on two ints: the correctly rounded quotient. *)
Definition int_truediv (a b : Z) : res float :=
  if b =? 0 then Raise ZeroDivisionError
  else match SFdiv prec emax (exact a) (exact b) with
       | S754_infinity _ => Raise OverflowError
       | f => Ret f
       end.

Definition is_zero (f : float) : bool :=
  match f with
  | S754_zero _ => true
  | _ => false
  end.

(** [a / b] on two floats. *)
Definition truediv (a b : float) : res float :=
  if is_zero b then Raise ZeroDivisionError else Ret (SFdiv prec emax a b).

Definition sub (a b : float) : float := SFsub prec emax a b.
Definition mul (a b : float) : float := SFmul prec emax a b.
Definition neg (a : float) : float := SFopp a.

(** [z - f] with [z] an int: the int is converted first. *)
Definition int_sub_float (z : Z) (f : float) : res float :=
  res_bind (float_of_int z) (fun zf => Ret (sub zf f)).

(** [f * z] with [z] an int. *)
Definition float_mul_int (f : float) (z : Z) : res float :=
  res_bind (float_of_int z) (fun zf => Ret (mul f zf)).

(** [int(f)]: the integral part, the fraction is dropped. *)
Definition int_of_float (f : float) : res Z :=
  match f with
  | S754_zero _ => Ret 0
  | S754_nan => Raise ValueError
  | S754_infinity _ => Raise OverflowError
  | S754_finite s m e => Ret (cond_Zopp s (Z.shiftl (Zpos m) e))
  end.

End PyFloat.

(** What a Python variable holding a number may contain. *)
Inductive pynum : Type :=
| PyInt (z : Z)
| PyFloat (f : PyFloat.float).

(** [int(v)] *)
Definition py_int (v : pynum) : res Z :=
  match v with
  | PyInt z => Ret z
  | PyFloat f => PyFloat.int_of_float f
  end.

(** [str(z)] for an int, as used by an f-string. *)
Definition py_str (z : Z) : string := NilZero.string_of_int (Z.to_int z).

(* ================================================================== *)
(** ** The script's state and its observable effects                   *)
(* ================================================================== *)

Definition Point : Type := Z * Z.
Definition BBox : Type := Z * Z * Z * Z.
Definition Color : Type := Z * Z * Z.

(** A captured image: [frame.shape = (frame_h, frame_w, 3)]; the pixels are
    opaque.  [csrt_accepts] is what OpenCV's CSRT tracker makes of the image:
    the boxes on which [tracker.init] returns.  On any other box it raises
    [cv2.error], as it does for a box that lies outside the image. *)
Record Frame : Type := {
  frame_h : Z;
  frame_w : Z;
  pixels : nat;
  csrt_accepts : BBox -> bool
}.

(** The CSRT tracker object; [trk_init] is what [init] was called with. *)
Record Tracker : Type := { trk_init : option (Frame * BBox) }.

Record Serial : Type := { port : string; baudrate : Z }.

Definition SERIAL_PORT : string := "/dev/tty.usbmodemXXXX".
Definition BAUD_RATE : Z := 115200.
Definition MAX_DEFLECTION : Z := 30.

(** cv2 event codes *)
Definition EVENT_MOUSEMOVE : Z := 0.
Definition EVENT_LBUTTONDOWN : Z := 1.
Definition EVENT_LBUTTONUP : Z := 4.

(** The module-level variables. *)
Record globals : Type := {
  drawing : bool;
  start_point : option Point;
  end_point : option Point;
  tracker : option Tracker;
  tracking_active : bool;
  ser : option Serial
}.

Definition initial_globals : globals :=
  {| drawing := false; start_point := None; end_point := None;
     tracker := None; tracking_active := false; ser := None |}.

(** Console lines; the fields are the interpolated values. *)
Inductive message : Type :=
| MsgSerialConnected
| MsgSerialNotConnected
| MsgCannotOpenCamera
| MsgInstructions
| MsgTrackingObjectAt (b : BBox)
| MsgTrackerInitialized
| MsgFinAngles (l r t b : Z)
| MsgFailedToGrabFrame
| MsgDone.

Inductive effect : Type :=
| Console (m : message)
| SerialOpen (p : string) (b : Z)
| Sleep (seconds : Z)
| SerialWrite (data : string)
| SerialClose
| TrackerCreate
| TrackerInit (f : Frame) (b : BBox)
| TrackerUpdate (f : Frame)
| Rectangle (p1 p2 : Point) (c : Color)
| Line (p1 p2 : Point) (c : Color)
| Circle (center : Point) (radius : Z) (c : Color)
| PutText (text : string) (org : Point) (c : Color)
| ImShow (f : Frame)
| CallbackError (e : exn)     (* OpenCV prints the traceback and goes on *)
| CapRelease
| DestroyAllWindows.

(** State, exceptions and output: the globals survive a raise. *)
Definition M (A : Type) : Type := globals -> res A * globals * list effect.

Definition ret {A} (a : A) : M A := fun g => (Ret a, g, []).

Definition bind {A B} (m : M A) (k : A -> M B) : M B :=
  fun g =>
    match m g with
    | (Ret a, g1, o1) => let '(r, g2, o2) := k a g1 in (r, g2, o1 ++ o2)
    | (Raise e, g1, o1) => (Raise e, g1, o1)
    end.

Definition raise {A} (e : exn) : M A := fun g => (Raise e, g, []).
Definition lift {A} (r : res A) : M A := fun g => (r, g, []).
Definition emit (e : effect) : M unit := fun g => (Ret tt, g, [e]).
Definition gets {A} (f : globals -> A) : M A := fun g => (Ret (f g), g, []).
Definition modify (f : globals -> globals) : M unit := fun g => (Ret tt, f g, []).

Declare Scope py_scope.
Delimit Scope py_scope with py.
Notation "x <- m ;; k" := (bind m (fun x => k))
  (at level 61, m at next level, right associativity) : py_scope.
Notation "m ;; k" := (bind m (fun _ => k))
  (at level 61, right associativity) : py_scope.
Open Scope py_scope.

(** Assignments to the globals. *)
Definition set_drawing (b : bool) (g : globals) : globals :=
  {| drawing := b; start_point := start_point g; end_point := end_point g;
     tracker := tracker g; tracking_active := tracking_active g; ser := ser g |}.
Definition set_start_point (p : option Point) (g : globals) : globals :=
  {| drawing := drawing g; start_point := p; end_point := end_point g;
     tracker := tracker g; tracking_active := tracking_active g; ser := ser g |}.
Definition set_end_point (p : option Point) (g : globals) : globals :=
  {| drawing := drawing g; start_point := start_point g; end_point := p;
     tracker := tracker g; tracking_active := tracking_active g; ser := ser g |}.
Definition set_tracker (t : option Tracker) (g : globals) : globals :=
  {| drawing := drawing g; start_point := start_point g; end_point := end_point g;
     tracker := t; tracking_active := tracking_active g; ser := ser g |}.
Definition set_tracking_active (b : bool) (g : globals) : globals :=
  {| drawing := drawing g; start_point := start_point g; end_point := end_point g;
     tracker := tracker g; tracking_active := b; ser := ser g |}.
Definition set_ser (s : option Serial) (g : globals) : globals :=
  {| drawing := drawing g; start_point := start_point g; end_point := end_point g;
     tracker := tracker g; tracking_active := tracking_active g; ser := s |}.

(** [a, b = p]: unpacking [None] raises. *)
Definition unpack (p : option Point) : M Point :=
  match p with
  | Some q => ret q
  | None => raise TypeError
  end.

(** The dict handed to the mouse callback: [{'frame': ...}]. *)
Record params : Type := { frame : option Frame }.

(* ================================================================== *)
(** ** Selection: [init_tracker] and [select_roi_callback]             *)
(* ================================================================== *)

Definition init_tracker (fr : option Frame) (bbox : BBox) : M unit :=
  emit TrackerCreate ;;
  modify (set_tracker (Some {| trk_init := None |})) ;;
  match fr with
  | None => raise CvError
  | Some f =>
      emit (TrackerInit f bbox) ;;
      if csrt_accepts f bbox
      then modify (set_tracker (Some {| trk_init := Some (f, bbox) |}))
      else raise CvError
  end ;;
  modify (set_tracking_active true) ;;
  emit (Console MsgTrackerInitialized).

Definition select_roi_callback (event x y flags : Z) (param : params) : M unit :=
  if event =? EVENT_LBUTTONDOWN then
    modify (set_drawing true) ;;
    modify (set_start_point (Some (x, y))) ;;
    modify (set_end_point (Some (x, y))) ;;
    modify (set_tracking_active false)
  else if event =? EVENT_MOUSEMOVE then
    d <- gets drawing ;;
    if d then modify (set_end_point (Some (x, y))) else ret tt
  else if event =? EVENT_LBUTTONUP then
    modify (set_drawing false) ;;
    modify (set_end_point (Some (x, y))) ;;
    sp <- gets start_point ;;
    p1 <- unpack sp ;;
    ep <- gets end_point ;;
    p2 <- unpack ep ;;
    let '(x1, y1) := p1 in
    let '(x2, y2) := p2 in
    let x_min := Z.min x1 x2 in
    let y_min := Z.min y1 y2 in
    let width := Z.abs (x2 - x1) in
    let height := Z.abs (y2 - y1) in
    if (10 <? width) && (10 <? height) then
      let bbox := (x_min, y_min, width, height) in
      init_tracker (frame param) bbox ;;
      emit (Console (MsgTrackingObjectAt (x_min, y_min, width, height)))
    else ret tt
  else ret tt.

(* ================================================================== *)
(** ** The control loop of [main]                                      *)
(* ================================================================== *)

Definition GREEN : Color := (0, 255, 0).
Definition WHITE : Color := (255, 255, 255).
Definition RED : Color := (0, 0, 255).
Definition BLUE : Color := (255, 0, 0).
Definition CYAN : Color := (255, 255, 0).

Definition draw_crosshair (center : Point) (size : Z) (color : Color) : M unit :=
  let '(x, y) := center in
  emit (Line (x - size, y) (x + size, y) color) ;;
  emit (Line (x, y - size) (x, y + size) color) ;;
  emit (Circle center 5 color) ;;
  emit (Circle center 5 WHITE).

Definition newline : string := String (ascii_of_nat 10) EmptyString.

(** [f"<{fin_left},{fin_right},{fin_top},{fin_bottom}>\n"] *)
Definition command (fin_left fin_right fin_top fin_bottom : Z) : string :=
  ("<" ++ py_str fin_left ++ "," ++ py_str fin_right ++ "," ++
   py_str fin_top ++ "," ++ py_str fin_bottom ++ ">" ++ newline)%string.

(** [(center - size / 2) / (size / 2)], evaluated left to right. *)
Definition error_of (center size : Z) : res PyFloat.float :=
  res_bind (PyFloat.int_truediv size 2) (fun half1 =>
  res_bind (PyFloat.int_sub_float center half1) (fun diff =>
  res_bind (PyFloat.int_truediv size 2) (fun half2 =>
  PyFloat.truediv diff half2))).

(** [int(e * MAX_DEFLECTION)] *)
Definition fin_of (e : PyFloat.float) : res Z :=
  res_bind (PyFloat.float_mul_int e MAX_DEFLECTION) PyFloat.int_of_float.

(** The four fin angles of lines 119-127, in the order
    (fin_left, fin_right, fin_top, fin_bottom). *)
Definition fins (center_x center_y frame_w frame_h : Z) : res (Z * Z * Z * Z) :=
  res_bind (error_of center_x frame_w) (fun error_x =>
  res_bind (error_of center_y frame_h) (fun error_y =>
  res_bind (fin_of (PyFloat.neg error_x)) (fun fin_left =>
  res_bind (fin_of error_x) (fun fin_right =>
  res_bind (fin_of (PyFloat.neg error_y)) (fun fin_top =>
  res_bind (fin_of error_y) (fun fin_bottom =>
  Ret (fin_left, fin_right, fin_top, fin_bottom))))))).

Definition raw_bbox : Type := pynum * pynum * pynum * pynum.

Definition is_some {A} (o : option A) : bool :=
  match o with
  | Some _ => true
  | None => false
  end.

(** Lines 109-145: one tracker update and what follows from it.  [upd] is
    what [tracker.update(frame)] answers.  An effect records a call being
    made; the calls into pyserial and into OpenCV's drawing functions are
    taken to return, as they do while the port stays connected and the
    coordinates fit a C [int]. *)
Definition track (fr : Frame) (upd : bool * raw_bbox) : M unit :=
  active <- gets tracking_active ;;
  trk <- gets tracker ;;
  if active && is_some trk then
    emit (TrackerUpdate fr) ;;
    let '(success, (b0, b1, b2, b3)) := upd in
    if success then
      x <- lift (py_int b0) ;;
      y <- lift (py_int b1) ;;
      w <- lift (py_int b2) ;;
      h <- lift (py_int b3) ;;
      let center_x := x + w / 2 in
      let center_y := y + h / 2 in
      f <- lift (fins center_x center_y (frame_w fr) (frame_h fr)) ;;
      let '(fin_left, fin_right, fin_top, fin_bottom) := f in
      emit (Console (MsgFinAngles fin_left fin_right fin_top fin_bottom)) ;;
      s <- gets ser ;;
      (if is_some s
       then emit (SerialWrite (command fin_left fin_right fin_top fin_bottom))
       else ret tt) ;;
      emit (Rectangle (x, y) (x + w, y + h) GREEN) ;;
      draw_crosshair (center_x, center_y) 30 GREEN ;;
      emit (PutText "TRACKING" (x, y - 10) GREEN) ;;
      emit (PutText ("Center: (" ++ py_str center_x ++ ", " ++ py_str center_y ++ ")")
                    (10, 30) GREEN)
    else
      emit (PutText "TRACKING LOST - Draw new box" (10, 30) RED) ;;
      modify (set_tracking_active false)
  else ret tt.

(** Lines 147-154: the drag rectangle and the idle hint. *)
Definition overlays : M unit :=
  d <- gets drawing ;;
  sp <- gets start_point ;;
  ep <- gets end_point ;;
  match d, sp, ep with
  | true, Some s, Some e =>
      emit (Rectangle s e BLUE) ;;
      emit (PutText "Release to track" (fst s, snd s - 10) BLUE)
  | _, _, _ => ret tt
  end ;;
  active <- gets tracking_active ;;
  d' <- gets drawing ;;
  if negb active && negb d'
  then emit (PutText "Click and drag to select object" (10, 30) CYAN)
  else ret tt.

(** A callback that raises does not stop [cv2.waitKey]: the traceback is
    printed and the assignments made so far stay. *)
Definition guarded (m : M unit) : M unit :=
  fun g =>
    match m g with
    | (Ret _, g1, o1) => (Ret tt, g1, o1)
    | (Raise e, g1, o1) => (Ret tt, g1, o1 ++ [CallbackError e])
    end.

Definition pointer_event : Type := Z * Z * Z * Z.   (* event, x, y, flags *)

(** [cv2.waitKey(1)]: the pending pointer events reach the callback, then
    the key code (or -1) is returned. *)
Fixpoint deliver (evs : list pointer_event) (param : params) : M unit :=
  match evs with
  | [] => ret tt
  | (event, x, y, flags) :: rest =>
      guarded (select_roi_callback event x y flags param) ;;
      deliver rest param
  end.

Definition waitKey (evs : list pointer_event) (code : Z) (param : params) : M Z :=
  deliver evs param ;; ret code.

Definition ord_q : Z := 113.
Definition ord_r : Z := 114.

(** Lines 161-166. *)
Definition reset : M unit :=
  modify (set_tracking_active false) ;;
  modify (set_tracker None) ;;
  modify (set_drawing false) ;;
  modify (set_start_point None) ;;
  modify (set_end_point None).

(** What the outside world supplies during one pass of the loop. *)
Record iter_input : Type := {
  grabbed : option Frame;            (* [cap.read()]: [None] when [ret] is false *)
  update : bool * raw_bbox;          (* answer of [tracker.update], if asked *)
  events : list pointer_event;       (* pointer events pending at [waitKey] *)
  key_code : Z                       (* value of [cv2.waitKey(1)] *)
}.

(** One pass of the [while True] body; [true] means [break]. *)
Definition iteration (i : iter_input) : M bool :=
  match grabbed i with
  | None => emit (Console MsgFailedToGrabFrame) ;; ret true
  | Some fr =>
      let callback_params := {| frame := Some fr |} in
      track fr (update i) ;;
      overlays ;;
      emit (ImShow fr) ;;
      k <- waitKey (events i) (key_code i) callback_params ;;
      let key := Z.land k 255 in
      if key =? ord_q then ret true
      else if key =? ord_r then reset ;; ret false
      else ret false
  end.

(** The loop over the passes the world provides; [true] when it was left by
    [break], [false] when the observation ends with the loop still running. *)
Fixpoint loop (its : list iter_input) : M bool :=
  match its with
  | [] => ret false
  | i :: rest =>
      stop <- iteration i ;;
      if stop then ret true else loop rest
  end.

Record world : Type := {
  serial_opens : bool;
  camera_opens : bool;
  passes : list iter_input
}.

(** Lines 70-78: the port is opened on a best-effort basis. *)
Definition serial_init (w : world) : M unit :=
  emit (SerialOpen SERIAL_PORT BAUD_RATE) ;;
  if serial_opens w
  then modify (set_ser (Some {| port := SERIAL_PORT; baudrate := BAUD_RATE |})) ;;
       emit (Sleep 2) ;;
       emit (Console MsgSerialConnected)
  else emit (Console MsgSerialNotConnected) ;;
       modify (set_ser None).

(** Lines 80-172: the camera, the loop and the shutdown. *)
Definition camera_loop (w : world) : M unit :=
  if negb (camera_opens w) then emit (Console MsgCannotOpenCamera)
  else
    emit (Console MsgInstructions) ;;
    left <- loop (passes w) ;;
    if left then
      emit CapRelease ;;
      emit DestroyAllWindows ;;
      s <- gets ser ;;
      (if is_some s then emit SerialClose else ret tt) ;;
      emit (Console MsgDone)
    else ret tt.

Definition main (w : world) : M unit :=
  serial_init w ;;
  camera_loop w.

(* ================================================================== *)
(** ** Views, predicates and sample inputs used by the statements      *)
(* ================================================================== *)

(** The spec's three selection states, read off the globals. *)
Inductive SelectionState : Type :=
| Idle
| Dragging (start current : option Point)
| Tracking.

Definition selection_state (g : globals) : SelectionState :=
  if drawing g then Dragging (start_point g) (end_point g)
  else if tracking_active g then Tracking
  else Idle.

Definition result_of {A} (x : res A * globals * list effect) : res A := fst (fst x).
Definition state_of {A} (x : res A * globals * list effect) : globals := snd (fst x).
Definition trace_of {A} (x : res A * globals * list effect) : list effect := snd x.

(** Trace predicates. *)
Definition is_write (e : effect) : bool :=
  match e with SerialWrite _ => true | _ => false end.
Definition is_update (e : effect) : bool :=
  match e with TrackerUpdate _ => true | _ => false end.
Definition is_init (e : effect) : bool :=
  match e with TrackerInit _ _ => true | _ => false end.

Definition count (p : effect -> bool) (o : list effect) : nat :=
  List.length (List.filter p o).

(** [obeys I P m]: from a state satisfying [I], [m] ends in a state
    satisfying [I] and emits only effects satisfying [P]. *)
Definition obeys (I : globals -> Prop) (P : effect -> Prop) {A} (m : M A) : Prop :=
  forall g, I g -> I (state_of (m g)) /\ Forall P (trace_of (m g)).

(** Equal up to the serial handle. *)
Definition same_but_ser (g1 g2 : globals) : Prop := set_ser None g1 = set_ser None g2.

Definition is_serial (e : effect) : bool :=
  match e with
  | SerialWrite _ | SerialClose => true
  | _ => false
  end.

(** A trace with the traffic on the serial port left out. *)
Definition silent (o : list effect) : list effect :=
  List.filter (fun e => negb (is_serial e)) o.

(** [ser_blind m]: apart from the serial traffic, [m] behaves the same
    whatever [ser] holds. *)
Definition ser_blind {A} (m : M A) : Prop :=
  forall g1 g2, same_but_ser g1 g2 ->
    result_of (m g1) = result_of (m g2) /\
    same_but_ser (state_of (m g1)) (state_of (m g2)) /\
    silent (trace_of (m g1)) = silent (trace_of (m g2)).

(** Effects that do not touch the serial port, and the invariant that the
    port is closed. *)
Definition off_wire (e : effect) : Prop := is_serial e = false.
Definition no_port (g : globals) : Prop := ser g = None.

Definition exact_rec (m : Z) : shr_record := {| shr_m := m; shr_r := false; shr_s := false |}.

(** The least integer not below an approximated value. *)
Definition up (m : Z) (l : location) : Z :=
  match l with
  | loc_Exact => m
  | loc_Inexact _ => m + 1
  end.

(** A bound [Mb * 2^Eb] that is itself a binary64 number. *)
Definition representable (Mb Eb : Z) : Prop :=
  0 < Mb < 2 ^ 53 /\ -1074 <= Eb <= 971.

(** A float that is zero or finite with magnitude at most [Mb * 2^Eb]. *)
Definition is_bounded (f : spec_float) (Mb Eb : Z) : Prop :=
  match f with
  | S754_zero _ => True
  | S754_finite _ m e => e <= Eb /\ Zpos m <= Mb * 2 ^ (Eb - e)
  | _ => False
  end.

(** [is_dyadic f N E]: [f] is the number [N * 2^E], held with an exponent of
    at most [E]. *)
Definition is_dyadic (f : spec_float) (N E : Z) : Prop :=
  match f with
  | S754_zero _ => N = 0
  | S754_finite s m e => e <= E /\ cond_Zopp s (Zpos m) = N * 2 ^ (E - e)
  | _ => False
  end.

Definition one : spec_float := S754_finite false 4503599627370496 (-52).

(** [float(MAX_DEFLECTION)] *)
Definition f30 : spec_float := S754_finite false 8444249301319680 (-48).

(** The value of a finite float as a fraction [float_num / float_den]. *)
Definition float_num (f : spec_float) : Z :=
  match f with
  | S754_finite s m e => cond_Zopp s (Zpos m) * 2 ^ Z.max e 0
  | _ => 0
  end.

Definition float_den (f : spec_float) : Z :=
  match f with
  | S754_finite s m e => 2 ^ Z.max (- e) 0
  | _ => 1
  end.

Definition is_finite (f : spec_float) : bool :=
  match f with
  | S754_zero _ | S754_finite _ _ _ => true
  | _ => false
  end.

Definition res_map {A B} (f : A -> B) (r : res A) : res B :=
  match r with
  | Ret a => Ret (f a)
  | Raise e => Raise e
  end.

(** The integral part of a finite float. *)
Definition trunc (v : spec_float) : Z := Z.quot (float_num v) (float_den v).


(** Effects other than tracker updates and serial writes. *)
Definition quiet (e : effect) : Prop := is_update e = false /\ is_write e = false.

(** Pointer moves, as [cv2.waitKey] hands them to the callback. *)
Definition moves (pts : list Point) : list pointer_event :=
  List.map (fun p => (EVENT_MOUSEMOVE, fst p, snd p, 0)) pts.

(** The boxes that lie within an image of [h] rows and [w] columns. *)
Definition within (h w : Z) (b : BBox) : bool :=
  let '(x, y, bw, bh) := b in
  (0 <=? x) && (0 <=? y) && (x + bw <=? w) && (y + bh <=? h).

(** A 640 x 480 image on which the tracker takes the boxes within it. *)
Definition vga : Frame :=
  {| frame_h := 480; frame_w := 640; pixels := 0; csrt_accepts := within 480 640 |}.

Definition port0 : Serial := {| port := SERIAL_PORT; baudrate := BAUD_RATE |}.

(** After a press at (50, 50) and a move to (12, 30). *)
Definition dragging0 : globals :=
  {| drawing := true; start_point := Some (50, 50); end_point := Some (12, 30);
     tracker := None; tracking_active := false; ser := Some port0 |}.

(** Tracking the box selected by dragging from (50, 50) to (10, 10). *)
Definition tracking0 : globals :=
  {| drawing := false; start_point := Some (50, 50); end_point := Some (10, 10);
     tracker := Some {| trk_init := Some (vga, (10, 10, 40, 40)) |};
     tracking_active := true; ser := Some port0 |}.

Definition box (x y w h : Z) : raw_bbox := (PyInt x, PyInt y, PyInt w, PyInt h).


(* ================================================================== *)
(** ** Further views and predicates                                    *)
(* ================================================================== *)

(** Pointer events as [cv2.waitKey] hands them to the callback. *)
Definition press (p : Point) : pointer_event := (EVENT_LBUTTONDOWN, fst p, snd p, 0).
Definition release (p : Point) : pointer_event := (EVENT_LBUTTONUP, fst p, snd p, 0).

(** The globals agree with one of the three selection states: tracking
    needs a tracker and excludes dragging, dragging needs both points. *)
Definition well_formed (g : globals) : Prop :=
  (tracking_active g = true -> is_some (tracker g) = true /\ drawing g = false) /\
  (drawing g = true -> is_some (start_point g) = true /\ is_some (end_point g) = true).

(** A box handed to the tracker is more than 10 pixels wide and high. *)
Definition big_box (e : effect) : Prop :=
  match e with
  | TrackerInit _ (_, _, w, h) => 10 < w /\ 10 < h
  | _ => True
  end.

Definition is_cap_release (e : effect) : bool :=
  match e with CapRelease => true | _ => false end.
Definition is_close (e : effect) : bool :=
  match e with SerialClose => true | _ => false end.

(** The drawing calls. *)
Definition is_drawing (e : effect) : Prop :=
  match e with
  | Rectangle _ _ _ | Line _ _ _ | Circle _ _ _ | PutText _ _ _ => True
  | _ => False
  end.

(** Effects of the loop proper: nothing is released or closed. *)
Definition keeps_open (e : effect) : Prop := is_cap_release e = false /\ is_close e = false.

Definition with_key (i : iter_input) (k : Z) : iter_input :=
  {| grabbed := grabbed i; update := update i; events := events i; key_code := k |}.

Definition left_by_break (r : res bool) : bool :=
  match r with
  | Ret true => true
  | _ => false
  end.

Definition pynum_finite (v : pynum) : bool :=
  match v with
  | PyInt _ => true
  | PyFloat f => is_finite f
  end.

(** A float that is not a negative (positive) finite number. *)
Definition not_negative (f : spec_float) : Prop :=
  match f with
  | S754_finite true _ _ => False
  | _ => True
  end.

Definition not_positive (f : spec_float) : Prop :=
  match f with
  | S754_finite false _ _ => False
  | _ => True
  end.

(** Characters of a string. *)
Fixpoint has_char (c : ascii) (s : string) : bool :=
  match s with
  | EmptyString => false
  | String a rest => Ascii.eqb a c || has_char c rest
  end.

Definition digit_or_minus (c : ascii) : bool :=
  match c with
  | "0" | "1" | "2" | "3" | "4" | "5" | "6" | "7" | "8" | "9" | "-" => true
  | _ => false
  end%char.

(** What may follow [cv2.imshow] within a pass: no drawing, and a tracker
    initialised on the frame of this pass only. *)
Definition after_show (fr : Frame) (e : effect) : Prop :=
  match e with
  | TrackerInit f _ => f = fr
  | Rectangle _ _ _ | Line _ _ _ | Circle _ _ _ | PutText _ _ _ => False
  | _ => True
  end.

Definition is_create (e : effect) : bool :=
  match e with TrackerCreate => true | _ => false end.

(** [balanced m]: whatever the state, [m] calls the tracker's [init] as
    often as it creates a tracker. *)
Definition balanced {A} (m : M A) : Prop :=
  forall g, count is_create (trace_of (m g)) = count is_init (trace_of (m g)).

(** The effects of the loop body outside the tracking step and the
    callback, and those of the start and the shutdown. *)
Definition of_pass (e : effect) : Prop :=
  match e with
  | Console MsgFailedToGrabFrame | Rectangle _ _ _ | PutText _ _ _ | ImShow _ => True
  | _ => False
  end.

Definition of_frame (e : effect) : Prop :=
  match e with
  | Console _ | SerialOpen _ _ | Sleep _ | SerialClose | CapRelease | DestroyAllWindows => True
  | _ => False
  end.

(* ================================================================== *)
(** ** The monad: runs, invariants of traces, independence of [ser] *)
(* ================================================================== *)

Ltac unfold_setters :=
  unfold set_drawing, set_start_point, set_end_point, set_tracker,
    set_tracking_active, set_ser in *.

Ltac run :=
  unfold bind, modify, gets, emit, ret, raise, lift, unpack; cbn;
  unfold_setters; cbn.

Lemma bind_run {A B} (m : M A) (k : A -> M B) (g : globals) :
  bind m k g =
    match result_of (m g) with
    | Ret a => (result_of (k a (state_of (m g))), state_of (k a (state_of (m g))),
                trace_of (m g) ++ trace_of (k a (state_of (m g))))
    | Raise e => (Raise e, state_of (m g), trace_of (m g))
    end.
Proof.
  unfold bind, result_of, state_of, trace_of.
  destruct (m g) as [[[a | e] g1] o1]; cbn; [ | reflexivity ].
  destruct (k a g1) as [[r g2] o2]; reflexivity.
Qed.

Section Obeys.
Variable I : globals -> Prop.
Variable P : effect -> Prop.

Lemma obeys_ret {A} (a : A) : obeys I P (ret a).
Proof. intros g H; split; [ exact H | constructor ]. Qed.

Lemma obeys_raise {A} (e : exn) : obeys I P (@raise A e).
Proof. intros g H; split; [ exact H | constructor ]. Qed.

Lemma obeys_lift {A} (r : res A) : obeys I P (lift r).
Proof. intros g H; split; [ exact H | constructor ]. Qed.

Lemma obeys_gets {A} (f : globals -> A) : obeys I P (gets f).
Proof. intros g H; split; [ exact H | constructor ]. Qed.

Lemma obeys_emit (e : effect) : P e -> obeys I P (emit e).
Proof. intros He g H; split; [ exact H | repeat constructor; exact He ]. Qed.

Lemma obeys_modify (f : globals -> globals) :
  (forall g, I g -> I (f g)) -> obeys I P (modify f).
Proof. intros Hf g H; split; [ apply Hf, H | constructor ]. Qed.

Lemma obeys_bind {A B} (m : M A) (k : A -> M B) :
  obeys I P m -> (forall a, obeys I P (k a)) -> obeys I P (bind m k).
Proof.
  intros Hm Hk g H. rewrite bind_run.
  destruct (Hm g H) as [H1 T1].
  destruct (result_of (m g)) as [a | e]; cbn.
  - destruct (Hk a _ H1) as [H2 T2]. split; [ exact H2 | ].
    unfold trace_of at 1; cbn. apply Forall_app; split; assumption.
  - split; assumption.
Qed.

Lemma obeys_guarded (m : M unit) :
  (forall e, P (CallbackError e)) -> obeys I P m -> obeys I P (guarded m).
Proof.
  intros He Hm g H. destruct (Hm g H) as [H1 T1].
  unfold guarded, state_of, trace_of in *.
  destruct (m g) as [[[a | e] g1] o1]; cbn in *; split; auto.
  apply Forall_app; split; [ assumption | repeat constructor; apply He ].
Qed.
End Obeys.

Lemma silent_app (o1 o2 : list effect) : silent (o1 ++ o2) = silent o1 ++ silent o2.
Proof. apply filter_app. Qed.

Lemma blind_ret {A} (a : A) : ser_blind (ret a).
Proof. intros g1 g2 H; repeat split; assumption. Qed.

Lemma blind_raise {A} (e : exn) : ser_blind (@raise A e).
Proof. intros g1 g2 H; repeat split; assumption. Qed.

Lemma blind_lift {A} (r : res A) : ser_blind (lift r).
Proof. intros g1 g2 H; repeat split; assumption. Qed.

Lemma blind_emit (e : effect) : ser_blind (emit e).
Proof. intros g1 g2 H; repeat split; assumption. Qed.

Lemma blind_gets {A} (f : globals -> A) :
  (forall g, f (set_ser None g) = f g) -> ser_blind (gets f).
Proof.
  intros Hf g1 g2 H; repeat split; try assumption.
  unfold result_of, gets; cbn. rewrite <- (Hf g1), <- (Hf g2).
  unfold same_but_ser in H. rewrite H. reflexivity.
Qed.

Lemma blind_modify (f : globals -> globals) :
  (forall g, set_ser None (f g) = f (set_ser None g)) -> ser_blind (modify f).
Proof.
  intros Hf g1 g2 H; repeat split.
  unfold same_but_ser, state_of, modify in *; cbn. rewrite !Hf, H. reflexivity.
Qed.

Lemma blind_bind {A B} (m : M A) (k : A -> M B) :
  ser_blind m -> (forall a, ser_blind (k a)) -> ser_blind (bind m k).
Proof.
  intros Hm Hk g1 g2 H. rewrite !bind_run.
  destruct (Hm g1 g2 H) as (Hr & Hs & Ht). rewrite <- Hr.
  destruct (result_of (m g1)) as [a | e]; cbn.
  - destruct (Hk a _ _ Hs) as (Hr' & Hs' & Ht').
    repeat split; try assumption.
    unfold trace_of in *; cbn. rewrite !silent_app. congruence.
  - repeat split; assumption.
Qed.

(** [if ser: ser.write(...)] and [if ser: ser.close()] *)
Lemma blind_if_ser (e : effect) :
  is_serial e = true ->
  ser_blind (bind (gets ser) (fun s => if is_some s then emit e else ret tt)).
Proof.
  intros He g1 g2 H. unfold bind, gets, emit, ret, result_of, state_of, trace_of.
  cbn. destruct (ser g1), (ser g2); cbn; rewrite ?He; repeat split; auto.
Qed.

Lemma blind_guarded (m : M unit) : ser_blind m -> ser_blind (guarded m).
Proof.
  intros Hm g1 g2 H. destruct (Hm g1 g2 H) as (Hr & Hs & Ht).
  unfold guarded, result_of, state_of, trace_of in *.
  destruct (m g1) as [[[a1 | e1] h1] o1], (m g2) as [[[a2 | e2] h2] o2];
    cbn in *; try discriminate; repeat split; auto.
  injection Hr as ->. unfold silent in *. rewrite !filter_app, Ht. reflexivity.
Qed.
Lemma bind_assoc {A B C} (m : M A) (k : A -> M B) (h : B -> M C) (g : globals) :
  bind (bind m k) h g = bind m (fun a => bind (k a) h) g.
Proof.
  unfold bind. destruct (m g) as [[[a | e] g1] o1]; [ | reflexivity ].
  destruct (k a g1) as [[[b | e] g2] o2]; [ | reflexivity ].
  destruct (h b g2) as [[r g3] o3]. rewrite app_assoc. reflexivity.
Qed.

Lemma blind_if_ser_then {A} (e : effect) (k : M A) :
  is_serial e = true -> ser_blind k ->
  ser_blind (bind (gets ser)
               (fun s => bind (if is_some s then emit e else ret tt) (fun _ => k))).
Proof.
  intros He Hk g1 g2 H. rewrite <- !bind_assoc.
  revert g1 g2 H. apply blind_bind; [ apply blind_if_ser, He | intros _; exact Hk ].
Qed.

Lemma obeys_if_ser_then {A} (P : effect -> Prop) (e : effect) (k : M A) :
  obeys (fun g => ser g = None) P k ->
  obeys (fun g => ser g = None) P
    (bind (gets ser)
       (fun s => bind (if is_some s then emit e else ret tt) (fun _ => k))).
Proof.
  intros Hk g H. destruct (Hk g H) as [H1 T1].
  unfold bind, gets, emit, ret, state_of, trace_of in *. cbn. rewrite H. cbn.
  destruct (k g) as [[r g2] o2]; cbn in *. split; assumption.
Qed.

(** One step of a structural proof that a computation is [ser_blind] or
    [obeys] an invariant. *)
Ltac blind_step :=
  match goal with
  | |- ser_blind (bind (gets ser) _) => apply blind_if_ser_then; [ reflexivity | ]
  | |- ser_blind (bind _ _) => apply blind_bind; [ | intros ? ]
  | |- ser_blind (ret _) => apply blind_ret
  | |- ser_blind (raise _) => apply blind_raise
  | |- ser_blind (lift _) => apply blind_lift
  | |- ser_blind (emit _) => apply blind_emit
  | |- ser_blind (gets _) => apply blind_gets; reflexivity
  | |- ser_blind (modify _) => apply blind_modify; reflexivity
  | |- ser_blind (guarded _) => apply blind_guarded
  | |- ser_blind (match ?x with _ => _ end) => destruct x
  | |- ser_blind (let '(_, _) := ?x in _) => destruct x
  end.

Ltac obeys_step :=
  match goal with
  | |- obeys _ _ (bind (gets ser) _) => apply obeys_if_ser_then
  | |- obeys _ _ (bind _ _) => apply obeys_bind; [ | intros ? ]
  | |- obeys _ _ (ret _) => apply obeys_ret
  | |- obeys _ _ (raise _) => apply obeys_raise
  | |- obeys _ _ (lift _) => apply obeys_lift
  | |- obeys _ _ (emit _) => apply obeys_emit; cbn; try tauto; try reflexivity
  | |- obeys _ _ (gets _) => apply obeys_gets
  | |- obeys _ _ (modify _) => apply obeys_modify; intros ? ?; cbn; try tauto; try assumption
  | |- obeys _ _ (guarded _) => apply obeys_guarded; [ intros ?; cbn; try tauto; try reflexivity | ]
  | |- obeys _ _ (match ?x with _ => _ end) => destruct x
  | |- obeys _ _ (let '(_, _) := ?x in _) => destruct x
  end.

Lemma track_blind (fr : Frame) (upd : bool * raw_bbox) : ser_blind (track fr upd).
Proof. unfold track, draw_crosshair. repeat blind_step. Qed.

Lemma overlays_blind : ser_blind overlays.
Proof. unfold overlays. repeat blind_step. Qed.

Lemma callback_blind (event x y flags : Z) (param : params) :
  ser_blind (select_roi_callback event x y flags param).
Proof. unfold select_roi_callback, init_tracker, unpack. repeat blind_step. Qed.

Lemma deliver_blind (evs : list pointer_event) (param : params) :
  ser_blind (deliver evs param).
Proof.
  induction evs as [ | [[[event x] y] flags] rest IH]; cbn.
  - apply blind_ret.
  - apply blind_bind; [ apply blind_guarded, callback_blind | intros _; exact IH ].
Qed.

Lemma iteration_blind (i : iter_input) : ser_blind (iteration i).
Proof.
  unfold iteration, waitKey, reset.
  destruct (grabbed i); repeat blind_step;
    auto using track_blind, overlays_blind, deliver_blind.
Qed.

Lemma loop_blind (its : list iter_input) : ser_blind (loop its).
Proof.
  induction its as [ | i rest IH]; cbn.
  - apply blind_ret.
  - apply blind_bind; [ apply iteration_blind | intros [ | ]; [ apply blind_ret | exact IH ] ].
Qed.

Lemma track_off_wire (fr : Frame) (upd : bool * raw_bbox) :
  obeys no_port off_wire (track fr upd).
Proof. unfold track, draw_crosshair, no_port, off_wire. repeat obeys_step. Qed.

Lemma overlays_off_wire : obeys no_port off_wire overlays.
Proof. unfold overlays, no_port, off_wire. repeat obeys_step. Qed.

Lemma callback_off_wire (event x y flags : Z) (param : params) :
  obeys no_port off_wire (select_roi_callback event x y flags param).
Proof.
  unfold select_roi_callback, init_tracker, unpack, no_port, off_wire.
  repeat obeys_step.
Qed.

Lemma deliver_off_wire (evs : list pointer_event) (param : params) :
  obeys no_port off_wire (deliver evs param).
Proof.
  induction evs as [ | [[[event x] y] flags] rest IH]; cbn.
  - apply obeys_ret.
  - apply obeys_bind; [ | intros _; exact IH ].
    apply obeys_guarded; [ reflexivity | apply callback_off_wire ].
Qed.

Lemma iteration_off_wire (i : iter_input) : obeys no_port off_wire (iteration i).
Proof.
  unfold iteration, waitKey, reset.
  destruct (grabbed i); repeat obeys_step;
    auto using track_off_wire, overlays_off_wire, deliver_off_wire.
Qed.

Lemma loop_off_wire (its : list iter_input) : obeys no_port off_wire (loop its).
Proof.
  induction its as [ | i rest IH]; cbn.
  - apply obeys_ret.
  - apply obeys_bind; [ apply iteration_off_wire | intros [ | ]; [ apply obeys_ret | exact IH ] ].
Qed.

(* ================================================================== *)
(** ** Binary64: digits, shifts and rounding *)
(* ================================================================== *)

Lemma fexp_eq (e : Z) : fexp PyFloat.prec PyFloat.emax e = Z.max (e - 53) (-1074).
Proof. reflexivity. Qed.

Lemma digits2_pos_size (p : positive) : digits2_pos p = Pos.size p.
Proof. induction p; cbn; congruence. Qed.

Lemma Zdigits2_log2 (m : Z) : 0 < m -> Zdigits2 m = Z.log2 m + 1.
Proof.
  destruct m as [ | p | p]; try lia. intros _. cbn.
  rewrite digits2_pos_size. destruct p; cbn; lia.
Qed.

Lemma Zdigits2_nonneg (m : Z) : 0 <= Zdigits2 m.
Proof. destruct m; cbn; lia. Qed.

(** [m < 2^k] bounds the number of digits by [k]. *)
Lemma Zdigits2_le (m k : Z) : 0 <= m -> 0 <= k -> m < 2 ^ k -> Zdigits2 m <= k.
Proof.
  intros Hm Hk Hlt.
  destruct (Z.eq_dec m 0) as [-> | Hne]; [ cbn; lia | ].
  rewrite Zdigits2_log2 by lia.
  assert (Z.log2 m < k) by (apply Z.log2_lt_pow2; lia). lia.
Qed.

Lemma Zdigits2_spec (m : Z) : 0 < m -> 2 ^ (Zdigits2 m - 1) <= m < 2 ^ Zdigits2 m.
Proof.
  intros Hm. rewrite Zdigits2_log2 by lia.
  replace (Z.log2 m + 1 - 1) with (Z.log2 m) by lia.
  replace (Z.log2 m + 1) with (Z.succ (Z.log2 m)) by lia.
  apply Z.log2_spec, Hm.
Qed.

Lemma Zdigits2_mul_pow2 (m k : Z) : 0 < m -> 0 <= k -> Zdigits2 (m * 2 ^ k) = Zdigits2 m + k.
Proof.
  intros Hm Hk.
  assert (0 < m * 2 ^ k) by (apply Z.mul_pos_pos; [ lia | apply Z.pow_pos_nonneg; lia ]).
  rewrite !Zdigits2_log2 by lia.
  rewrite Z.log2_mul_pow2 by lia. lia.
Qed.

Lemma Zdigits2_div_pow2 (m k : Z) :
  0 < m -> 0 <= k -> (2 ^ k | m) -> Zdigits2 (m / 2 ^ k) = Zdigits2 m - k.
Proof.
  intros Hm Hk [q Hq]. subst m.
  assert (0 < 2 ^ k) by (apply Z.pow_pos_nonneg; lia).
  rewrite Z.div_mul by lia.
  assert (0 < q) by nia.
  rewrite Zdigits2_mul_pow2 by lia. lia.
Qed.

Lemma pow2_xO (n : positive) : 2 ^ Z.pos n~0 = 2 ^ Z.pos n * 2 ^ Z.pos n.
Proof.
  replace (Z.pos n~0) with (Z.pos n + Z.pos n) by lia.
  apply Z.pow_add_r; lia.
Qed.

Lemma pow2_xI (n : positive) : 2 ^ Z.pos n~1 = 2 * (2 ^ Z.pos n * 2 ^ Z.pos n).
Proof.
  replace (Z.pos n~1) with (1 + (Z.pos n + Z.pos n)) by lia.
  rewrite Z.pow_add_r, Z.pow_add_r by lia. reflexivity.
Qed.

Lemma pow2_pos (k : Z) : 0 <= k -> 0 < 2 ^ k.
Proof. intros; apply Z.pow_pos_nonneg; lia. Qed.

Lemma shr_1_m (mrs : shr_record) : 0 <= shr_m mrs -> shr_m (shr_1 mrs) = shr_m mrs / 2.
Proof.
  destruct mrs as [m r s]; cbn [shr_m]. intros Hm.
  destruct m as [ | [p | p | ] | p]; cbn [shr_1 shr_m]; try lia; try reflexivity.
  - apply Z.div_unique with (r := 1); lia.
  - apply Z.div_unique with (r := 0); lia.
Qed.

Lemma iter_shr_1_m (n : positive) (mrs : shr_record) :
  0 <= shr_m mrs -> shr_m (iter_pos shr_1 n mrs) = shr_m mrs / 2 ^ Zpos n.
Proof.
  revert mrs. induction n as [n IH | n IH | ]; intros mrs Hm; cbn [iter_pos].
  - assert (Hp : 0 < 2 ^ Z.pos n) by (apply pow2_pos; lia).
    assert (H1 : 0 <= shr_m (shr_1 mrs)) by (rewrite shr_1_m by lia; apply Z.div_pos; lia).
    assert (H2 : 0 <= shr_m (iter_pos shr_1 n (shr_1 mrs)))
      by (rewrite IH by lia; apply Z.div_pos; lia).
    rewrite IH, IH, shr_1_m by lia.
    rewrite !Z.div_div by lia. rewrite pow2_xI. reflexivity.
  - assert (Hp : 0 < 2 ^ Z.pos n) by (apply pow2_pos; lia).
    assert (H2 : 0 <= shr_m (iter_pos shr_1 n mrs))
      by (rewrite IH by lia; apply Z.div_pos; lia).
    rewrite IH, IH by lia.
    rewrite !Z.div_div by lia. rewrite pow2_xO. reflexivity.
  - rewrite shr_1_m by lia. reflexivity.
Qed.

Lemma shr_1_exact (m : Z) : 0 <= m -> (2 | m) -> shr_1 (exact_rec m) = exact_rec (m / 2).
Proof.
  intros Hm [q Hq]. subst m. rewrite Z.div_mul by lia.
  replace (q * 2) with (2 * q) in * by lia.
  destruct q as [ | p | p]; try lia; reflexivity.
Qed.

Lemma iter_shr_1_exact (n : positive) (m : Z) :
  0 <= m -> (2 ^ Zpos n | m) ->
  iter_pos shr_1 n (exact_rec m) = exact_rec (m / 2 ^ Zpos n).
Proof.
  revert m. induction n as [n IH | n IH | ]; intros m Hm Hd; cbn [iter_pos].
  - rewrite pow2_xI in *.
    assert (Hp : 0 < 2 ^ Z.pos n) by (apply pow2_pos; lia).
    destruct Hd as [q Hq]. subst m.
    assert (0 <= q) by nia.
    rewrite shr_1_exact; [ | nia | exists (q * 2 ^ Z.pos n * 2 ^ Z.pos n); lia ].
    replace (q * (2 * (2 ^ Z.pos n * 2 ^ Z.pos n)) / 2) with (q * 2 ^ Z.pos n * 2 ^ Z.pos n)
      by (apply Z.div_unique with (r := 0); lia).
    rewrite IH; [ | nia | exists (q * 2 ^ Z.pos n); lia ].
    rewrite Z.div_mul by lia.
    rewrite IH; [ | nia | exists q; lia ].
    rewrite Z.div_mul by lia.
    f_equal. apply Z.div_unique with (r := 0); nia.
  - rewrite pow2_xO in *.
    assert (Hp : 0 < 2 ^ Z.pos n) by (apply pow2_pos; lia).
    destruct Hd as [q Hq]. subst m.
    assert (0 <= q) by nia.
    rewrite IH; [ | nia | exists (q * 2 ^ Z.pos n); lia ].
    replace (q * (2 ^ Z.pos n * 2 ^ Z.pos n) / 2 ^ Z.pos n) with (q * 2 ^ Z.pos n)
      by (apply Z.div_unique with (r := 0); nia).
    rewrite IH; [ | nia | exists q; lia ].
    rewrite Z.div_mul by lia.
    f_equal. apply Z.div_unique with (r := 0); nia.
  - apply shr_1_exact; assumption.
Qed.

Lemma shr_m_spec (mrs : shr_record) (e n : Z) :
  0 <= shr_m mrs ->
  shr_m (fst (shr mrs e n)) = shr_m mrs / 2 ^ Z.max n 0 /\
  snd (shr mrs e n) = e + Z.max n 0.
Proof.
  intros Hm. destruct n as [ | p | p]; cbn [shr fst snd].
  - change (Z.max 0 0) with 0. rewrite Z.div_1_r. lia.
  - rewrite iter_shr_1_m by assumption.
    replace (Z.max (Z.pos p) 0) with (Z.pos p) by lia. split; reflexivity.
  - replace (Z.max (Z.neg p) 0) with 0 by lia. rewrite Z.div_1_r. lia.
Qed.

Lemma shr_exact (m e n : Z) :
  0 <= m -> (2 ^ Z.max n 0 | m) ->
  shr (exact_rec m) e n = (exact_rec (m / 2 ^ Z.max n 0), e + Z.max n 0).
Proof.
  intros Hm Hd. destruct n as [ | p | p]; cbn [shr].
  - change (Z.max 0 0) with 0. rewrite Z.div_1_r, Z.add_0_r. reflexivity.
  - replace (Z.max (Z.pos p) 0) with (Z.pos p) in * by lia.
    rewrite iter_shr_1_exact by assumption. reflexivity.
  - replace (Z.max (Z.neg p) 0) with 0 by lia. rewrite Z.div_1_r, Z.add_0_r. reflexivity.
Qed.

Lemma loc_of_record_of_loc (m : Z) (l : location) :
  loc_of_shr_record (shr_record_of_loc m l) = l.
Proof. destruct l as [ | [ | | ]]; reflexivity. Qed.

Lemma shr_m_record_of_loc (m : Z) (l : location) : shr_m (shr_record_of_loc m l) = m.
Proof. destruct l as [ | [ | | ]]; reflexivity. Qed.

Lemma rne_bounds (m : Z) (l : location) :
  m <= round_nearest_even m l <= up m l.
Proof.
  destruct l as [ | [ | | ]]; cbn; try lia. destruct (Z.even m); lia.
Qed.

(** One normalisation step of [binary_round_aux] does not cross a
    representable bound. *)
Lemma shr_fexp_le (m e : Z) (l : location) (Mb Eb : Z) :
  0 <= m -> e <= Eb -> representable Mb Eb ->
  up m l <= Mb * 2 ^ (Eb - e) ->
  e <= snd (shr_fexp PyFloat.prec PyFloat.emax m e l) <= Eb /\
  0 <= shr_m (fst (shr_fexp PyFloat.prec PyFloat.emax m e l)) /\
  round_nearest_even (shr_m (fst (shr_fexp PyFloat.prec PyFloat.emax m e l)))
    (loc_of_shr_record (fst (shr_fexp PyFloat.prec PyFloat.emax m e l)))
  <= Mb * 2 ^ (Eb - snd (shr_fexp PyFloat.prec PyFloat.emax m e l)).
Proof.
  intros Hm He [HMb HEb] Hup.
  assert (Hmu : m <= up m l) by (destruct l; cbn; lia).
  assert (Hp : 0 < 2 ^ (Eb - e)) by (apply pow2_pos; lia).
  assert (Hd : Zdigits2 m <= 53 + (Eb - e)).
  { apply Zdigits2_le; try lia. rewrite Z.pow_add_r by lia. nia. }
  unfold shr_fexp. rewrite fexp_eq.
  set (n := Z.max (Zdigits2 m + e - 53) (-1074) - e).
  assert (Hn : n <= Eb - e) by lia.
  destruct (shr_m_spec (shr_record_of_loc m l) e n) as [Hsm Hse];
    [ rewrite shr_m_record_of_loc; exact Hm | ].
  rewrite shr_m_record_of_loc in Hsm.
  rewrite Hse.
  assert (Hp' : 0 < 2 ^ Z.max n 0) by (apply pow2_pos; lia).
  split; [ lia | ]. split; [ rewrite Hsm; apply Z.div_pos; lia | ].
  destruct (Z.le_gt_cases n 0) as [Hn0 | Hn0].
  - (* no shift *)
    replace (Z.max n 0) with 0 in * by lia. rewrite Z.add_0_r.
    assert (Hs : shr (shr_record_of_loc m l) e n = (shr_record_of_loc m l, e))
      by (destruct n; try lia; reflexivity).
    rewrite Hs. cbn [fst]. rewrite loc_of_record_of_loc, shr_m_record_of_loc.
    pose proof (rne_bounds m l). lia.
  - replace (Z.max n 0) with n in * by lia.
    set (K := Mb * 2 ^ (Eb - (e + n))).
    assert (HK : Mb * 2 ^ (Eb - e) = K * 2 ^ n).
    { unfold K. replace (Eb - e) with ((Eb - (e + n)) + n) by lia.
      rewrite Z.pow_add_r by lia. lia. }
    destruct (Z.lt_ge_cases m (K * 2 ^ n)) as [Hlt | Hge].
    + assert (m / 2 ^ n < K) by (apply Z.div_lt_upper_bound; lia).
      pose proof (rne_bounds (shr_m (fst (shr (shr_record_of_loc m l) e n)))
                    (loc_of_shr_record (fst (shr (shr_record_of_loc m l) e n)))) as Hb.
      assert (Hu : forall x l', up x l' <= x + 1) by (intros x [ | c]; cbn; lia).
      specialize (Hu (shr_m (fst (shr (shr_record_of_loc m l) e n)))
                     (loc_of_shr_record (fst (shr (shr_record_of_loc m l) e n)))).
      rewrite Hsm in *. lia.
    + assert (Hmeq : m = K * 2 ^ n) by lia.
      assert (Hl : l = loc_Exact) by (destruct l; [ reflexivity | cbn in Hup; lia ]).
      subst l. change (shr_record_of_loc m loc_Exact) with (exact_rec m).
      rewrite shr_exact; [ | lia | replace (Z.max n 0) with n by lia; exists K; lia ].
      replace (Z.max n 0) with n by lia. cbn [fst exact_rec shr_m loc_of_shr_record].
      cbn [round_nearest_even]. rewrite Hmeq, Z.div_mul by lia. lia.
Qed.

(** Rounding is monotone against a representable bound: a value of at most
    [Mb * 2^Eb] rounds to a float of at most [Mb * 2^Eb]. *)
Lemma round_le (s : bool) (mx ex : Z) (lx : location) (Mb Eb : Z) :
  0 <= mx -> ex <= Eb -> representable Mb Eb ->
  up mx lx <= Mb * 2 ^ (Eb - ex) ->
  is_bounded (binary_round_aux PyFloat.prec PyFloat.emax s mx ex lx) Mb Eb.
Proof.
  intros Hm He HB Hup.
  destruct (shr_fexp_le mx ex lx Mb Eb Hm He HB Hup) as (He1 & Hm1 & Hr1).
  unfold binary_round_aux.
  destruct (shr_fexp PyFloat.prec PyFloat.emax mx ex lx) as [mrs1 e1]. cbn [fst snd] in *.
  set (m1 := round_nearest_even (shr_m mrs1) (loc_of_shr_record mrs1)) in *.
  assert (Hm1' : 0 <= m1)
    by (pose proof (rne_bounds (shr_m mrs1) (loc_of_shr_record mrs1)); unfold m1; lia).
  destruct (shr_fexp_le m1 e1 loc_Exact Mb Eb Hm1' (proj2 He1) HB Hr1) as (He2 & Hm2 & Hr2).
  destruct (shr_fexp PyFloat.prec PyFloat.emax m1 e1 loc_Exact) as [mrs2 e2]. cbn [fst snd] in *.
  pose proof (rne_bounds (shr_m mrs2) (loc_of_shr_record mrs2)) as Hb2.
  destruct (shr_m mrs2) as [ | p | p]; cbn [is_bounded]; try lia; try exact I.
  destruct HB as [_ HEb]. change (PyFloat.emax - PyFloat.prec) with 971.
  replace (e2 <=? 971) with true by (symmetry; apply Z.leb_le; lia).
  cbn [is_bounded]. lia.
Qed.

(** An exact value whose low bits are zero is kept as it is. *)
Lemma round_exact (s : bool) (mx ex n : Z) :
  0 < mx ->
  n = Z.max (fexp PyFloat.prec PyFloat.emax (Zdigits2 mx + ex) - ex) 0 ->
  (2 ^ n | mx) -> ex + n <= 971 ->
  binary_round_aux PyFloat.prec PyFloat.emax s mx ex loc_Exact =
    S754_finite s (Z.to_pos (mx / 2 ^ n)) (ex + n).
Proof.
  intros Hm Hn Hd He.
  assert (Hp : 0 < 2 ^ n) by (apply pow2_pos; lia).
  assert (Hq : 0 < mx / 2 ^ n).
  { destruct Hd as [q Hq]. rewrite Hq, Z.div_mul by lia. nia. }
  unfold binary_round_aux, shr_fexp.
  change (shr_record_of_loc mx loc_Exact) with (exact_rec mx).
  rewrite shr_exact by (rewrite <- ?Hn; lia || assumption). rewrite <- Hn.
  cbn [exact_rec shr_m loc_of_shr_record round_nearest_even].
  assert (Hdig : Zdigits2 (mx / 2 ^ n) + (ex + n) = Zdigits2 mx + ex).
  { rewrite Zdigits2_div_pow2 by (lia || assumption). lia. }
  rewrite Hdig.
  change (shr_record_of_loc (mx / 2 ^ n) loc_Exact) with (exact_rec (mx / 2 ^ n)).
  assert (Hs : shr (exact_rec (mx / 2 ^ n)) (ex + n)
                 (fexp PyFloat.prec PyFloat.emax (Zdigits2 mx + ex) - (ex + n))
               = (exact_rec (mx / 2 ^ n), ex + n)).
  { destruct (fexp PyFloat.prec PyFloat.emax (Zdigits2 mx + ex) - (ex + n)) eqn:E; try reflexivity.
    exfalso. lia. }
  rewrite Hs. cbn [exact_rec shr_m].
  destruct (mx / 2 ^ n) as [ | p | p] eqn:E; try lia.
  change (PyFloat.emax - PyFloat.prec) with 971.
  replace (ex + n <=? 971) with true by (symmetry; apply Z.leb_le; lia).
  reflexivity.
Qed.

Lemma round_exact_dyadic (s : bool) (k t ex : Z) :
  0 < k < 2 ^ 53 -> 0 <= t -> -1074 <= ex + t <= 971 ->
  exists m e,
    binary_round_aux PyFloat.prec PyFloat.emax s (k * 2 ^ t) ex loc_Exact = S754_finite s m e /\
    ex <= e <= ex + t /\ Zpos m = k * 2 ^ (ex + t - e).
Proof.
  intros Hk Ht He.
  assert (Hpt : 0 < 2 ^ t) by (apply pow2_pos; lia).
  assert (Hmx : 0 < k * 2 ^ t) by nia.
  assert (Hd : Zdigits2 (k * 2 ^ t) <= 53 + t).
  { rewrite Zdigits2_mul_pow2 by lia.
    assert (Zdigits2 k <= 53) by (apply Zdigits2_le; lia). lia. }
  set (n := Z.max (fexp PyFloat.prec PyFloat.emax (Zdigits2 (k * 2 ^ t) + ex) - ex) 0).
  assert (Hn : 0 <= n <= t) by (unfold n; rewrite fexp_eq; lia).
  assert (Hpn : 0 < 2 ^ n) by (apply pow2_pos; lia).
  assert (Hsplit : k * 2 ^ t = k * 2 ^ (t - n) * 2 ^ n).
  { replace t with ((t - n) + n) at 1 by lia. rewrite Z.pow_add_r by lia. lia. }
  assert (Hpq : 0 < k * 2 ^ (t - n)).
  { assert (0 < 2 ^ (t - n)) by (apply pow2_pos; lia). nia. }
  exists (Z.to_pos (k * 2 ^ (t - n))), (ex + n).
  rewrite (round_exact s (k * 2 ^ t) ex n) by
    (try reflexivity; try lia; exists (k * 2 ^ (t - n)); exact Hsplit).
  rewrite Hsplit at 1. rewrite Z.div_mul by lia.
  split; [ reflexivity | ]. split; [ lia | ].
  rewrite Z2Pos.id by lia. f_equal. f_equal. lia.
Qed.

Lemma iter_xO_pow2 (p d : positive) : Zpos (Pos.iter xO p d) = Zpos p * 2 ^ Zpos d.
Proof.
  rewrite (Pos.iter_swap_gen _ _ Zpos xO (Z.mul 2)) by reflexivity.
  change (Pos.iter (Z.mul 2) (Z.pos p) d) with (Z.shiftl (Z.pos p) (Z.pos d)).
  apply Z.shiftl_mul_pow2. lia.
Qed.

Lemma shl_align_spec (mx : positive) (ex ex' : Z) :
  let '(mz, ez) := shl_align mx ex ex' in
  ez = Z.min ex ex' /\ Zpos mz = Zpos mx * 2 ^ (ex - ez).
Proof.
  unfold shl_align. destruct (ex' - ex) as [ | d | d] eqn:E.
  - replace (Z.min ex ex') with ex by lia. rewrite Z.sub_diag. cbn. lia.
  - replace (Z.min ex ex') with ex by lia. rewrite Z.sub_diag. cbn. lia.
  - split; [ lia | ]. rewrite iter_xO_pow2. f_equal. f_equal. lia.
Qed.

Lemma binary_round_exact (s : bool) (mx : positive) (k t ex : Z) :
  Zpos mx = k * 2 ^ t ->
  0 < k < 2 ^ 53 -> 0 <= t -> -1074 <= ex + t <= 971 ->
  exists m e,
    binary_round PyFloat.prec PyFloat.emax s mx ex = S754_finite s m e /\
    e <= ex + t /\ Zpos m = k * 2 ^ (ex + t - e).
Proof.
  intros Hmx Hk Ht He.
  assert (Hpt : 0 < 2 ^ t) by (apply pow2_pos; lia).
  unfold binary_round.
  pose proof (shl_align_spec mx ex (fexp PyFloat.prec PyFloat.emax (Z.pos (digits2_pos mx) + ex))) as Hsh.
  destruct (shl_align mx ex (fexp PyFloat.prec PyFloat.emax (Z.pos (digits2_pos mx) + ex))) as [mz ez].
  destruct Hsh as [Hez Hmz].
  change (Z.pos (digits2_pos mx)) with (Zdigits2 (Zpos mx)) in Hez.
  rewrite fexp_eq in Hez.
  assert (Hd : Zdigits2 (Zpos mx) <= 53 + t).
  { rewrite Hmx, Zdigits2_mul_pow2 by lia.
    assert (Zdigits2 k <= 53) by (apply Zdigits2_le; lia). lia. }
  destruct (Z.le_gt_cases ex (Z.max (Zdigits2 (Z.pos mx) + ex - 53) (-1074))) as [Hc | Hc].
  - (* the mantissa is long enough: no left shift *)
    assert (Hez0 : ez = ex) by lia. rewrite Hez0 in *. clear Hez0.
    rewrite Z.sub_diag, Z.mul_1_r in Hmz. rewrite Hmz, Hmx.
    destruct (round_exact_dyadic s k t ex Hk Ht He) as (m & e & Hr & Hle & Hm).
    exists m, e. repeat split; try assumption; lia.
  - (* shifted left to the canonical exponent *)
    assert (Hez' : ez = Z.max (Zdigits2 (Z.pos mx) + ex - 53) (-1074)) by lia.
    assert (Hpz : 0 < 2 ^ (ex - ez)) by (apply pow2_pos; lia).
    assert (Hkz : 0 < Zpos mz < 2 ^ 53).
    { split; [ lia | ].
      assert (Hdz : Zdigits2 (Zpos mz) <= 53).
      { rewrite Hmz, Zdigits2_mul_pow2 by lia. lia. }
      pose proof (Zdigits2_spec (Zpos mz) ltac:(lia)) as [_ Hlt].
      apply Z.lt_le_trans with (1 := Hlt). apply Z.pow_le_mono_r; lia. }
    destruct (round_exact_dyadic s (Zpos mz) 0 ez Hkz ltac:(lia) ltac:(lia))
      as (m & e & Hr & Hle & Hm).
    rewrite Z.pow_0_r, Z.mul_1_r in Hr.
    exists m, e. split; [ exact Hr | ]. split; [ lia | ].
    assert (e = ez) by lia. subst e.
    rewrite Hm, Z.add_0_r, Z.sub_diag, Z.mul_1_r, Hmz, Hmx.
    rewrite <- Z.mul_assoc, <- Z.pow_add_r by lia. f_equal. f_equal. lia.
Qed.

Lemma binary_normalize_exact (m e : Z) (N t : Z) :
  m = N * 2 ^ t -> Z.abs N < 2 ^ 53 -> 0 <= t -> -1074 <= e + t <= 971 ->
  is_dyadic (binary_normalize PyFloat.prec PyFloat.emax m e false) N (e + t).
Proof.
  intros Hm HN Ht He.
  assert (Hpt : 0 < 2 ^ t) by (apply pow2_pos; lia).
  destruct m as [ | p | p]; cbn [binary_normalize is_dyadic].
  - nia.
  - assert (Hk : 0 < N < 2 ^ 53) by nia.
    destruct (binary_round_exact false p N t e Hm Hk Ht He) as (m' & e' & -> & Hle & Hv).
    cbn. split; assumption.
  - assert (Hk : 0 < - N < 2 ^ 53) by nia.
    destruct (binary_round_exact true p (- N) t e ltac:(lia) Hk Ht He)
      as (m' & e' & -> & Hle & Hv).
    cbn. split; [ assumption | ]. lia.
Qed.

(* ================================================================== *)
(** ** Binary64: the operations the loop uses *)
(* ================================================================== *)

Lemma float_of_int_exact (z : Z) :
  Z.abs z < 2 ^ 53 ->
  exists f, PyFloat.float_of_int z = Ret f /\ is_dyadic f z 0.
Proof.
  intros Hz. unfold PyFloat.float_of_int.
  pose proof (binary_normalize_exact z 0 z 0 ltac:(cbn; lia) Hz ltac:(lia) ltac:(lia)) as H.
  cbn [Z.add] in H.
  destruct (binary_normalize PyFloat.prec PyFloat.emax z 0 false) as [s | s | | s m e];
    cbn in H; try contradiction; eexists; split; try reflexivity; exact H.
Qed.

Lemma new_location_up (q m2 r : Z) :
  up q (new_location m2 r) = if r =? 0 then q else q + 1.
Proof.
  unfold new_location, new_location_even, new_location_odd.
  destruct (Z.even m2), (r =? 0); reflexivity.
Qed.

Lemma new_location_exact (m2 : Z) : new_location m2 0 = loc_Exact.
Proof. unfold new_location, new_location_even, new_location_odd. destruct (Z.even m2); reflexivity. Qed.

Lemma div_core_spec (m1 m2 : positive) (e1 e2 : Z) :
  let e' := Z.min (fexp PyFloat.prec PyFloat.emax
                     (Zdigits2 (Zpos m1) + e1 - (Zdigits2 (Zpos m2) + e2))) (e1 - e2) in
  let m' := Zpos m1 * 2 ^ (e1 - e2 - e') in
  SFdiv_core_binary PyFloat.prec PyFloat.emax (Zpos m1) e1 (Zpos m2) e2 =
    (m' / Zpos m2, e', new_location (Zpos m2) (m' mod Zpos m2)).
Proof.
  intros e' m'. unfold SFdiv_core_binary. fold e'.
  assert (Hs : 0 <= e1 - e2 - e') by (unfold e'; lia).
  assert (Hm : match e1 - e2 - e' with
               | Z0 => Zpos m1
               | Zpos _ => Z.shiftl (Zpos m1) (e1 - e2 - e')
               | Zneg _ => 0
               end = m').
  { unfold m'. destruct (e1 - e2 - e') as [ | p | p] eqn:E; try lia.
    apply Z.shiftl_mul_pow2. lia. }
  rewrite Hm. unfold Z.div, Z.modulo.
  destruct (Z.div_eucl m' (Z.pos m2)) as [q r]. reflexivity.
Qed.

Lemma is_dyadic_digits (s : bool) (m : positive) (e N E : Z) :
  is_dyadic (S754_finite s m e) N E ->
  Z.abs N <> 0 /\ Zpos m = Z.abs N * 2 ^ (E - e) /\
  Zdigits2 (Zpos m) + e = Zdigits2 (Z.abs N) + E.
Proof.
  unfold is_dyadic. intros [He Hm].
  assert (Hp : 0 < 2 ^ (E - e)) by (apply pow2_pos; lia).
  assert (Hm' : Zpos m = Z.abs N * 2 ^ (E - e)) by (destruct s; cbn in Hm; nia).
  assert (HN : Z.abs N <> 0) by nia.
  repeat split; try assumption.
  rewrite Hm', Zdigits2_mul_pow2 by lia. lia.
Qed.

(** Division stays below a representable bound that the exact quotient
    respects. *)
Lemma div_bounded (x y : spec_float) (N D E Mb Eb : Z) :
  is_dyadic x N E -> is_dyadic y D E -> D <> 0 ->
  representable Mb Eb -> 0 <= Eb ->
  Z.abs N <= Mb * 2 ^ Eb * Z.abs D ->
  is_bounded (SFdiv PyFloat.prec PyFloat.emax x y) Mb Eb.
Proof.
  intros Hx Hy HD HB HEb Hle.
  destruct y as [sy | sy | | sy m2 e2]; cbn in Hy; try contradiction; try lia.
  destruct x as [sx | sx | | sx m1 e1]; cbn in Hx; try contradiction; [ exact I | ].
  destruct (is_dyadic_digits _ _ _ _ _ Hx) as (HN0 & Hm1 & Hd1).
  destruct (is_dyadic_digits _ _ _ _ _ Hy) as (HD0 & Hm2 & Hd2).
  destruct Hx as [He1 _], Hy as [He2 _].
  cbn [SFdiv]. rewrite div_core_spec.
  set (e' := Z.min _ _). set (m' := Z.pos m1 * 2 ^ (e1 - e2 - e')).
  destruct HB as [HMb HEb'].
  assert (HpEb : 0 < 2 ^ Eb) by (apply pow2_pos; lia).
  assert (HdN : Zdigits2 (Z.abs N) <= 53 + Eb + Zdigits2 (Z.abs D)).
  { pose proof (Zdigits2_nonneg (Z.abs D)).
    apply Zdigits2_le; try lia.
    pose proof (Zdigits2_spec (Z.abs D) ltac:(lia)) as [_ HDlt].
    rewrite !Z.pow_add_r by lia.
    apply Z.le_lt_trans with (1 := Hle).
    assert (H0 : 0 <= Mb * 2 ^ Eb) by (apply Z.mul_nonneg_nonneg; lia).
    assert (H1 : Mb * 2 ^ Eb < 2 ^ 53 * 2 ^ Eb) by (apply Z.mul_lt_mono_pos_r; lia).
    apply Z.mul_lt_mono_nonneg; lia. }
  assert (He' : e' <= Eb /\ e' <= e1 - e2) by (unfold e'; rewrite fexp_eq; lia).
  assert (Hs : 0 <= e1 - e2 - e') by lia.
  set (K := Mb * 2 ^ (Eb - e')).
  assert (Hm'K : m' <= K * Zpos m2).
  { unfold m', K. rewrite Hm1, Hm2.
    assert (0 < 2 ^ (E - e2 - e')) by (apply pow2_pos; lia).
    replace (Z.abs N * 2 ^ (E - e1) * 2 ^ (e1 - e2 - e')) with (Z.abs N * 2 ^ (E - e2 - e')).
    2:{ replace (E - e2 - e') with ((E - e1) + (e1 - e2 - e')) by lia.
        rewrite Z.pow_add_r by lia. lia. }
    replace (Mb * 2 ^ (Eb - e') * (Z.abs D * 2 ^ (E - e2)))
      with (Mb * 2 ^ Eb * Z.abs D * 2 ^ (E - e2 - e')).
    2:{ transitivity (Mb * Z.abs D * (2 ^ Eb * 2 ^ (E - e2 - e'))); [ lia | ].
        transitivity (Mb * Z.abs D * (2 ^ (Eb - e') * 2 ^ (E - e2))); [ | lia ].
        rewrite <- !Z.pow_add_r by lia. f_equal. f_equal. lia. }
    nia. }
  pose proof (Z.div_mod m' (Zpos m2) ltac:(lia)) as Hdm.
  pose proof (Z.mod_pos_bound m' (Zpos m2) ltac:(lia)) as Hmod.
  assert (Hm'0 : 0 <= m') by (unfold m'; assert (0 < 2 ^ (e1 - e2 - e')) by (apply pow2_pos; lia); nia).
  apply round_le.
  - apply Z.div_pos; lia.
  - lia.
  - split; [ assumption | lia ].
  - fold K. rewrite new_location_up.
    destruct (Z.eqb_spec (m' mod Zpos m2) 0); nia.
Qed.

Lemma is_dyadic_sign (s : bool) (m : positive) (e N E : Z) :
  is_dyadic (S754_finite s m e) N E -> s = (N <? 0).
Proof.
  unfold is_dyadic. intros [He Hm].
  assert (Hp : 0 < 2 ^ (E - e)) by (apply pow2_pos; lia).
  destruct s; cbn in Hm; symmetry; [ apply Z.ltb_lt | apply Z.ltb_ge ]; nia.
Qed.

(** [size / 2] is exact for every frame dimension. *)
Lemma half_exact (size : Z) :
  0 < size < 2 ^ 53 ->
  exists m e, PyFloat.int_truediv size 2 = Ret (S754_finite false m e) /\
              is_dyadic (S754_finite false m e) size (-1).
Proof.
  intros Hs. unfold PyFloat.int_truediv. cbn [Z.eqb].
  destruct size as [ | p | p]; try lia. cbn [PyFloat.exact SFdiv].
  rewrite div_core_spec.
  change (Zdigits2 2) with 2.
  assert (Hd : 1 <= Zdigits2 (Z.pos p) <= 53).
  { split; [ cbn; lia | apply Zdigits2_le; lia ]. }
  rewrite fexp_eq.
  replace (Z.min (Z.max (Zdigits2 (Z.pos p) + 0 - (2 + 0) - 53) (-1074)) (0 - 0))
    with (Zdigits2 (Z.pos p) - 55) by lia.
  set (t := 54 - Zdigits2 (Z.pos p)).
  replace (0 - 0 - (Zdigits2 (Z.pos p) - 55)) with (t + 1) by (unfold t; lia).
  replace (Zdigits2 (Z.pos p) - 55) with (- t - 1) by (unfold t; lia).
  assert (Ht : 1 <= t) by (unfold t; lia).
  assert (Hpt : 0 < 2 ^ t) by (apply pow2_pos; lia).
  assert (Hm' : Z.pos p * 2 ^ (t + 1) = (Z.pos p * 2 ^ t) * 2).
  { rewrite Z.pow_add_r by lia. change (2 ^ 1) with 2. lia. }
  rewrite Hm', Z.div_mul, Z.mod_mul by lia.
  rewrite new_location_exact. cbn [xorb].
  destruct (round_exact_dyadic false (Z.pos p) t (- t - 1) Hs ltac:(lia) ltac:(lia))
    as (m & e & Hr & He & Hm).
  rewrite Hr. exists m, e. split; [ reflexivity | ].
  unfold is_dyadic, cond_Zopp. split; [ lia | ]. rewrite Hm. f_equal. f_equal. lia.
Qed.

(** Subtraction is exact when the difference fits in 53 bits. *)
Lemma sub_exact (x y : spec_float) (Nx Ex Ny Ey : Z) :
  is_dyadic x Nx Ex -> is_dyadic y Ny Ey -> Ny <> 0 -> Ey <= Ex ->
  let N := Nx * 2 ^ (Ex - Ey) - Ny in
  Z.abs N < 2 ^ 53 -> -1074 <= Ey <= 971 ->
  is_dyadic (SFsub PyFloat.prec PyFloat.emax x y) N Ey.
Proof.
  intros Hx Hy HNy HEE N HN HE.
  assert (Hpx : 0 < 2 ^ (Ex - Ey)) by (apply pow2_pos; lia).
  destruct y as [sy | sy | | sy my ey]; cbn in Hy; try contradiction; try lia.
  destruct Hy as [Hey Hmy].
  destruct x as [sx | sx | | sx mx ex]; cbn in Hx; try contradiction.
  - subst Nx. cbn [SFsub is_dyadic]. split; [ lia | ].
    unfold N. destruct sy; cbn in *; lia.
  - destruct Hx as [Hex Hmx]. cbn [SFsub].
    pose proof (shl_align_spec mx ex (Z.min ex ey)) as Hax.
    pose proof (shl_align_spec my ey (Z.min ex ey)) as Hay.
    destruct (shl_align mx ex (Z.min ex ey)) as [ax ezx].
    destruct (shl_align my ey (Z.min ex ey)) as [ay ezy].
    destruct Hax as [Hzx Hax], Hay as [Hzy Hay]. cbn [fst].
    set (ez := Z.min ex ey) in *.
    assert (Hzx' : ezx = ez) by (unfold ez in *; lia).
    assert (Hzy' : ezy = ez) by (unfold ez in *; lia).
    rewrite Hzx' in Hax. rewrite Hzy' in Hay. clear Hzx Hzy Hzx' Hzy'.
    assert (Hez : ez <= Ey) by (unfold ez; lia).
    assert (Hpz : 0 < 2 ^ (Ey - ez)) by (apply pow2_pos; lia).
    pose proof (binary_normalize_exact
                  (cond_Zopp sx (Z.pos ax) - cond_Zopp sy (Z.pos ay)) ez N (Ey - ez)) as Hn.
    replace (ez + (Ey - ez)) with Ey in Hn by lia.
    apply Hn; try lia.
    assert (Hcx : cond_Zopp sx (Z.pos ax) = Nx * 2 ^ (Ex - Ey) * 2 ^ (Ey - ez)).
    { transitivity (cond_Zopp sx (Z.pos mx) * 2 ^ (ex - ez)).
      - rewrite Hax. destruct sx; unfold cond_Zopp; ring.
      - rewrite Hmx, <- !Z.mul_assoc, <- !Z.pow_add_r by (unfold ez in *; lia).
        f_equal. f_equal. lia. }
    assert (Hcy : cond_Zopp sy (Z.pos ay) = Ny * 2 ^ (Ey - ez)).
    { transitivity (cond_Zopp sy (Z.pos my) * 2 ^ (ey - ez)).
      - rewrite Hay. destruct sy; unfold cond_Zopp; ring.
      - rewrite Hmy, <- !Z.mul_assoc, <- !Z.pow_add_r by (unfold ez in *; lia).
        f_equal. f_equal. lia. }
    rewrite Hcx, Hcy. unfold N. lia.
Qed.

(** A number divided by itself is [1.0]. *)
Lemma div_same (x y : spec_float) (N E : Z) :
  is_dyadic x N E -> is_dyadic y N E -> N <> 0 ->
  SFdiv PyFloat.prec PyFloat.emax x y = one.
Proof.
  intros Hx Hy HN.
  destruct x as [sx | sx | | sx m1 e1]; cbn in Hx; try contradiction; try lia.
  destruct y as [sy | sy | | sy m2 e2]; cbn in Hy; try contradiction; try lia.
  pose proof (is_dyadic_sign _ _ _ _ _ Hx) as Hsx.
  pose proof (is_dyadic_sign _ _ _ _ _ Hy) as Hsy.
  destruct (is_dyadic_digits _ _ _ _ _ Hx) as (_ & Hm1 & Hd1).
  destruct (is_dyadic_digits _ _ _ _ _ Hy) as (_ & Hm2 & Hd2).
  destruct Hx as [He1 _], Hy as [He2 _].
  cbn [SFdiv]. rewrite div_core_spec.
  replace (Zdigits2 (Z.pos m1) + e1 - (Zdigits2 (Z.pos m2) + e2)) with 0 by lia.
  rewrite fexp_eq. change (Z.max (0 - 53) (-1074)) with (-53).
  set (e' := Z.min (-53) (e1 - e2)).
  assert (He' : e' <= -53 /\ e' <= e1 - e2) by (unfold e'; lia).
  assert (Hq : Z.pos m1 * 2 ^ (e1 - e2 - e') = 2 ^ (- e') * Z.pos m2).
  { rewrite Hm1, Hm2.
    transitivity (Z.abs N * (2 ^ (E - e1) * 2 ^ (e1 - e2 - e'))); [ lia | ].
    transitivity (Z.abs N * (2 ^ (- e') * 2 ^ (E - e2))); [ | lia ].
    rewrite <- !Z.pow_add_r by lia. f_equal. f_equal. lia. }
  rewrite Hq, Z.div_mul, Z.mod_mul by lia. rewrite new_location_exact.
  assert (Hs : xorb sx sy = false) by (rewrite Hsx, Hsy; destruct (N <? 0); reflexivity).
  rewrite Hs.
  assert (Hdig : Zdigits2 (2 ^ (- e')) = 1 - e').
  { replace (2 ^ (- e')) with (1 * 2 ^ (- e')) by lia.
    rewrite Zdigits2_mul_pow2 by lia. cbn. lia. }
  rewrite (round_exact false (2 ^ (- e')) e' (-52 - e')).
  - replace (e' + (-52 - e')) with (-52) by lia.
    replace (2 ^ (- e')) with (2 ^ 52 * 2 ^ (-52 - e'))
      by (rewrite <- Z.pow_add_r by lia; f_equal; lia).
    rewrite Z.div_mul by (apply Z.pow_nonzero; lia). reflexivity.
  - apply pow2_pos; lia.
  - rewrite Hdig, fexp_eq. lia.
  - exists (2 ^ 52). rewrite <- Z.pow_add_r by lia. f_equal. lia.
  - lia.
Qed.

Lemma float_of_30 : PyFloat.float_of_int MAX_DEFLECTION = Ret f30.
Proof. reflexivity. Qed.

Lemma mul_bounded (e : spec_float) (Mb Eb : Z) :
  is_bounded e Mb Eb -> representable (15 * Mb) (Eb + 1) ->
  is_bounded (PyFloat.mul e f30) (15 * Mb) (Eb + 1).
Proof.
  intros He HB. unfold PyFloat.mul, f30.
  destruct e as [s | s | | s m ee]; cbn in He; try contradiction; [ exact I | ].
  destruct He as [Hee Hm]. cbn [SFmul].
  apply round_le; try assumption; try lia.
  cbn [up]. rewrite Pos2Z.inj_mul.
  change (Z.pos 8444249301319680) with (15 * 2 ^ 49).
  replace (Eb + 1 - (ee + -48)) with ((Eb - ee) + 49) by lia.
  rewrite Z.pow_add_r by lia.
  assert (0 < 2 ^ 49) by (apply pow2_pos; lia).
  generalize dependent (2 ^ 49). intros P HP. nia.
Qed.

Lemma mul_exact (e : spec_float) (N : Z) :
  is_dyadic e N 0 -> Z.abs (30 * N) < 2 ^ 53 ->
  is_dyadic (PyFloat.mul e f30) (30 * N) 0.
Proof.
  intros He HN. unfold PyFloat.mul, f30.
  destruct e as [s | s | | s m ee]; try contradiction.
  - cbn [SFmul]. unfold is_dyadic in *. lia.
  - pose proof (is_dyadic_sign _ _ _ _ _ He) as Hs.
    destruct (is_dyadic_digits _ _ _ _ _ He) as (HN0 & Hm & _).
    destruct He as [Hee _]. cbn [SFmul]. rewrite Pos2Z.inj_mul, Hm.
    change (Z.pos 8444249301319680) with (30 * 2 ^ 48).
    replace (Z.abs N * 2 ^ (0 - ee) * (30 * 2 ^ 48)) with (Z.abs (30 * N) * 2 ^ (48 - ee)).
    2:{ replace (48 - ee) with ((0 - ee) + 48) by lia.
        rewrite Z.pow_add_r, Z.abs_mul by lia. change (Z.abs 30) with 30. ring. }
    destruct (round_exact_dyadic (xorb s false) (Z.abs (30 * N)) (48 - ee) (ee + -48)
                ltac:(lia) ltac:(lia) ltac:(lia)) as (m' & e' & Hr & He' & Hm').
    rewrite Hr. unfold is_dyadic. split; [ lia | ].
    replace (ee + -48 + (48 - ee) - e') with (0 - e') in Hm' by lia.
    rewrite xorb_false_r, Hs.
    destruct (Z.ltb_spec N 0); unfold cond_Zopp; rewrite Hm'; lia.
Qed.

(** [int] of a bounded float is bounded. *)
Lemma int_bounded (f : spec_float) (Mb Eb : Z) :
  is_bounded f Mb Eb -> 0 <= Eb -> 0 <= Mb ->
  exists z, PyFloat.int_of_float f = Ret z /\ Z.abs z <= Mb * 2 ^ Eb.
Proof.
  intros Hf HEb HMb.
  assert (HpEb : 0 < 2 ^ Eb) by (apply pow2_pos; lia).
  destruct f as [s | s | | s m e]; cbn in Hf; try contradiction.
  - exists 0. split; [ reflexivity | cbn; nia ].
  - destruct Hf as [He Hm]. eexists. split; [ reflexivity | ].
    assert (Habs : forall v, Z.abs (cond_Zopp s v) = Z.abs v) by (intros; destruct s; cbn; lia).
    rewrite Habs.
    destruct (Z.le_gt_cases 0 e) as [H0 | H0].
    + rewrite Z.shiftl_mul_pow2 by lia.
      assert (0 < 2 ^ e) by (apply pow2_pos; lia).
      rewrite Z.abs_eq by nia.
      assert (Hsp : 2 ^ Eb = 2 ^ (Eb - e) * 2 ^ e)
        by (rewrite <- Z.pow_add_r by lia; f_equal; lia).
      rewrite Hsp. nia.
    + rewrite Z.shiftl_div_pow2 by lia.
      assert (0 < 2 ^ (- e)) by (apply pow2_pos; lia).
      rewrite Z.abs_eq by (apply Z.div_pos; lia).
      apply Z.div_le_upper_bound; [ lia | ].
      replace (Eb - e) with (Eb + - e) in Hm by lia.
      rewrite Z.pow_add_r in Hm by lia. lia.
Qed.

(** [int] of an integral float is that integer. *)
Lemma int_exact (f : spec_float) (N : Z) :
  is_dyadic f N 0 -> PyFloat.int_of_float f = Ret N.
Proof.
  intros Hf. destruct f as [s | s | | s m e]; unfold is_dyadic in Hf; try contradiction.
  - subst. reflexivity.
  - destruct Hf as [He Hm]. cbn [PyFloat.int_of_float]. f_equal.
    assert (0 < 2 ^ (0 - e)) by (apply pow2_pos; lia).
    destruct (Z.eq_dec e 0) as [-> | Hne].
    + rewrite Z.shiftl_0_r. rewrite Hm. change (2 ^ (0 - 0)) with 1. lia.
    + rewrite Z.shiftl_div_pow2 by lia. replace (- e) with (0 - e) by lia.
      destruct s; cbn [cond_Zopp] in *.
      * replace (Z.pos m) with ((- N) * 2 ^ (0 - e)) by lia.
        rewrite Z.div_mul by lia. lia.
      * rewrite Hm, Z.div_mul by lia. reflexivity.
Qed.

(** [int(f)] drops the fraction: it is the quotient truncated toward zero. *)
Lemma int_of_float_trunc (f : spec_float) :
  is_finite f = true ->
  PyFloat.int_of_float f = Ret (Z.quot (float_num f) (float_den f)).
Proof.
  destruct f as [s | s | | s m e]; cbn [is_finite]; try discriminate; intros _.
  - reflexivity.
  - cbn [PyFloat.int_of_float float_num float_den]. f_equal.
    destruct (Z.le_gt_cases 0 e) as [H0 | H0].
    + replace (Z.max e 0) with e by lia. replace (Z.max (- e) 0) with 0 by lia.
      rewrite Z.pow_0_r, Z.quot_1_r, Z.shiftl_mul_pow2 by lia.
      destruct s; cbn [cond_Zopp]; lia.
    + replace (Z.max e 0) with 0 by lia. replace (Z.max (- e) 0) with (- e) by lia.
      rewrite Z.pow_0_r, Z.mul_1_r, Z.shiftl_div_pow2 by lia.
      assert (0 < 2 ^ (- e)) by (apply pow2_pos; lia).
      destruct s; cbn [cond_Zopp].
      * rewrite Z.quot_opp_l by lia. rewrite Z.quot_div_nonneg by lia. reflexivity.
      * rewrite Z.quot_div_nonneg by lia. reflexivity.
Qed.

Lemma is_bounded_finite (f : spec_float) (Mb Eb : Z) : is_bounded f Mb Eb -> is_finite f = true.
Proof. destruct f; cbn; intros H; try contradiction; reflexivity. Qed.

Lemma is_bounded_neg (f : spec_float) (Mb Eb : Z) :
  is_bounded f Mb Eb -> is_bounded (PyFloat.neg f) Mb Eb.
Proof. destruct f; cbn; intros H; exact H. Qed.

Lemma is_dyadic_neg (f : spec_float) (N E : Z) :
  is_dyadic f N E -> is_dyadic (PyFloat.neg f) (- N) E.
Proof.
  destruct f as [s | s | | s m e]; cbn; intros H; try contradiction; try lia.
  destruct H as [He Hm]. split; [ exact He | ]. destruct s; cbn in *; lia.
Qed.

(** Rounding commutes with a change of sign. *)
Lemma binary_round_aux_opp (s : bool) (mx ex : Z) (lx : location) :
  binary_round_aux PyFloat.prec PyFloat.emax (negb s) mx ex lx =
  SFopp (binary_round_aux PyFloat.prec PyFloat.emax s mx ex lx).
Proof.
  unfold binary_round_aux.
  destruct (shr_fexp PyFloat.prec PyFloat.emax mx ex lx) as [mrs1 e1].
  destruct (shr_fexp PyFloat.prec PyFloat.emax _ e1 loc_Exact) as [mrs2 e2].
  destruct (shr_m mrs2); try reflexivity.
  destruct (e2 <=? PyFloat.emax - PyFloat.prec); reflexivity.
Qed.

Lemma mul_neg (e : spec_float) : PyFloat.mul (PyFloat.neg e) f30 = SFopp (PyFloat.mul e f30).
Proof.
  unfold PyFloat.mul, PyFloat.neg, f30.
  destruct e as [s | s | | s m ee]; cbn [SFopp SFmul]; try reflexivity.
  - destruct s; reflexivity.
  - destruct s; reflexivity.
  - rewrite <- binary_round_aux_opp. destruct s; reflexivity.
Qed.

Lemma int_of_float_opp (f : spec_float) :
  PyFloat.int_of_float (SFopp f) = res_map Z.opp (PyFloat.int_of_float f).
Proof.
  destruct f as [s | s | | s m e]; cbn; try reflexivity.
  f_equal. destruct s; cbn; lia.
Qed.

(** The conversion is odd: [int(-e * 30) = -int(e * 30)], exceptions
    included. *)
Lemma fin_of_neg (e : spec_float) : fin_of (PyFloat.neg e) = res_map Z.opp (fin_of e).
Proof.
  unfold fin_of, PyFloat.float_mul_int. rewrite float_of_30. cbn [res_bind].
  rewrite mul_neg. apply int_of_float_opp.
Qed.

(* ================================================================== *)
(** ** The normalised error and the fin angles *)
(* ================================================================== *)

Ltac repr := unfold representable; repeat split; first [ reflexivity | easy | lia ].

(** [error_of] spelled out: no step raises, and the operands of the final
    division are exact. *)
Lemma error_of_steps (center size : Z) :
  0 < size < 2 ^ 53 -> Z.abs center < 2 ^ 53 -> Z.abs (2 * center - size) < 2 ^ 53 ->
  exists c m e,
    PyFloat.float_of_int center = Ret c /\
    PyFloat.int_truediv size 2 = Ret (S754_finite false m e) /\
    error_of center size =
      Ret (SFdiv PyFloat.prec PyFloat.emax
             (PyFloat.sub c (S754_finite false m e)) (S754_finite false m e)) /\
    is_dyadic (PyFloat.sub c (S754_finite false m e)) (2 * center - size) (-1) /\
    is_dyadic (S754_finite false m e) size (-1).
Proof.
  intros Hs Hc Hd.
  destruct (float_of_int_exact center Hc) as (c & Hfc & Hdc).
  destruct (half_exact size Hs) as (m & e & Hh & Hdh).
  exists c, m, e.
  split; [ exact Hfc | ]. split; [ exact Hh | ]. split; [ | split; [ | exact Hdh ] ].
  - unfold error_of, PyFloat.int_sub_float, PyFloat.truediv.
    rewrite Hh, Hfc. reflexivity.
  - pose proof (sub_exact c (S754_finite false m e) center 0 size (-1) Hdc Hdh
                  ltac:(lia) ltac:(lia)) as H.
    change (2 ^ (0 - -1)) with 2 in H. cbv zeta in H.
    replace (center * 2 - size) with (2 * center - size) in H by lia.
    apply H; lia.
Qed.

Lemma error_of_bounded (center size Mb Eb : Z) :
  0 < size < 2 ^ 53 -> Z.abs center < 2 ^ 53 -> Z.abs (2 * center - size) < 2 ^ 53 ->
  representable Mb Eb -> 0 <= Eb ->
  Z.abs (2 * center - size) <= Mb * 2 ^ Eb * size ->
  exists err, error_of center size = Ret err /\ is_bounded err Mb Eb.
Proof.
  intros Hs Hc Hd HB HEb Hle.
  destruct (error_of_steps center size Hs Hc Hd) as (c & m & e & _ & _ & He & Hdd & Hdh).
  eexists. split; [ exact He | ].
  apply div_bounded with (N := 2 * center - size) (D := size) (E := -1);
    try assumption; lia.
Qed.

(** A centre anywhere a 32-bit box can put it: the error is finite. *)
Lemma error_of_finite (center size : Z) :
  0 < size < 2 ^ 31 -> Z.abs center < 2 ^ 32 ->
  exists err, error_of center size = Ret err /\ is_bounded err 1 53.
Proof.
  intros Hs Hc.
  assert (H31 : 2 ^ 31 < 2 ^ 53) by (apply Z.pow_lt_mono_r; lia).
  assert (H32 : 2 ^ 32 + 2 ^ 32 + 2 ^ 31 < 2 ^ 53) by reflexivity.
  apply error_of_bounded; try lia; repr.
Qed.

(** A centre inside the frame: the error is at most 1 in magnitude. *)
Lemma error_of_in_frame (center size : Z) :
  0 < size < 2 ^ 52 -> 0 <= center <= size ->
  exists err, error_of center size = Ret err /\ is_bounded err 1 0.
Proof.
  intros Hs Hc.
  assert (H52 : 2 ^ 52 + 2 ^ 52 = 2 ^ 53) by reflexivity.
  apply error_of_bounded; try lia; repr.
Qed.

Lemma sub_same (x y : spec_float) (Nx Ex Ny Ey : Z) :
  is_dyadic x Nx Ex -> is_dyadic y Ny Ey -> Ny <> 0 -> Ey <= Ex ->
  Nx * 2 ^ (Ex - Ey) = Ny ->
  SFsub PyFloat.prec PyFloat.emax x y = S754_zero false.
Proof.
  intros Hx Hy HNy HEE Heq.
  assert (Hpx : 0 < 2 ^ (Ex - Ey)) by (apply pow2_pos; lia).
  destruct y as [sy | sy | | sy my ey]; unfold is_dyadic in Hy; try contradiction; try lia.
  destruct Hy as [Hey Hmy].
  destruct x as [sx | sx | | sx mx ex]; unfold is_dyadic in Hx; try contradiction; try nia.
  destruct Hx as [Hex Hmx]. cbn [SFsub].
  pose proof (shl_align_spec mx ex (Z.min ex ey)) as Hax.
  pose proof (shl_align_spec my ey (Z.min ex ey)) as Hay.
  destruct (shl_align mx ex (Z.min ex ey)) as [ax ezx].
  destruct (shl_align my ey (Z.min ex ey)) as [ay ezy].
  destruct Hax as [Hzx Hax], Hay as [Hzy Hay]. cbn [fst].
  set (ez := Z.min ex ey) in *.
  assert (Hzx' : ezx = ez) by (unfold ez in *; lia).
  assert (Hzy' : ezy = ez) by (unfold ez in *; lia).
  rewrite Hzx' in Hax. rewrite Hzy' in Hay. clear Hzx Hzy Hzx' Hzy'.
  assert (Hcx : cond_Zopp sx (Z.pos ax) = Nx * 2 ^ (Ex - Ey) * 2 ^ (Ey - ez)).
  { transitivity (cond_Zopp sx (Z.pos mx) * 2 ^ (ex - ez)).
    - rewrite Hax. destruct sx; unfold cond_Zopp; ring.
    - rewrite Hmx, <- !Z.mul_assoc, <- !Z.pow_add_r by (unfold ez in *; lia).
      f_equal. f_equal. lia. }
  assert (Hcy : cond_Zopp sy (Z.pos ay) = Ny * 2 ^ (Ey - ez)).
  { transitivity (cond_Zopp sy (Z.pos my) * 2 ^ (ey - ez)).
    - rewrite Hay. destruct sy; unfold cond_Zopp; ring.
    - rewrite Hmy, <- !Z.mul_assoc, <- !Z.pow_add_r by (unfold ez in *; lia).
      f_equal. f_equal. lia. }
  rewrite Hcx, Hcy, Heq, Z.sub_diag. reflexivity.
Qed.

(** A centre at the middle of the frame: the error is [0.0]. *)
Lemma error_of_middle (center size : Z) :
  0 < size < 2 ^ 53 -> 2 * center = size ->
  error_of center size = Ret (S754_zero false).
Proof.
  intros Hs Hc.
  destruct (float_of_int_exact center ltac:(lia)) as (c & Hfc & Hdc).
  destruct (half_exact size Hs) as (m & e & Hh & Hdh).
  unfold error_of, PyFloat.int_sub_float, PyFloat.truediv.
  rewrite Hh, Hfc. cbn [res_bind PyFloat.is_zero]. unfold PyFloat.sub.
  rewrite (sub_same c (S754_finite false m e) center 0 size (-1))
    by (try assumption; try lia; change (2 ^ (0 - -1)) with 2; lia).
  reflexivity.
Qed.

(** A centre on the right (or bottom) edge: the error is [1.0]. *)
Lemma error_of_edge (size : Z) :
  0 < size < 2 ^ 52 -> error_of size size = Ret one.
Proof.
  intros Hs.
  assert (H52 : 2 ^ 52 + 2 ^ 52 = 2 ^ 53) by reflexivity.
  destruct (error_of_steps size size ltac:(lia) ltac:(lia) ltac:(lia))
    as (c & m & e & _ & _ & He & Hdd & Hdh).
  rewrite He. f_equal.
  replace (2 * size - size) with size in Hdd by lia.
  apply div_same with (N := size) (E := -1); try assumption; lia.
Qed.

Lemma fin_of_bounded (err : spec_float) (Mb Eb : Z) :
  is_bounded err Mb Eb -> representable (15 * Mb) (Eb + 1) -> 0 <= Eb ->
  fin_of err = Ret (trunc (PyFloat.mul err f30)) /\
  Z.abs (trunc (PyFloat.mul err f30)) <= 15 * Mb * 2 ^ (Eb + 1).
Proof.
  intros He HB HEb.
  pose proof (mul_bounded err Mb Eb He HB) as Hm.
  unfold fin_of, PyFloat.float_mul_int. rewrite float_of_30. cbn [res_bind].
  rewrite int_of_float_trunc by (eapply is_bounded_finite; exact Hm).
  split; [ reflexivity | ].
  destruct (int_bounded _ _ _ Hm ltac:(lia) ltac:(destruct HB; lia)) as (z & Hz & Hb).
  rewrite int_of_float_trunc in Hz by (eapply is_bounded_finite; exact Hm).
  injection Hz as <-. exact Hb.
Qed.

(* ================================================================== *)
(** ** Runs of the program's functions *)
(* ================================================================== *)

Lemma track_inactive (g : globals) (fr : Frame) (upd : bool * raw_bbox) :
  tracking_active g = false -> track fr upd g = (Ret tt, g, []).
Proof.
  intros H. unfold track, bind, gets. cbn. rewrite H. reflexivity.
Qed.

Lemma track_lost (g : globals) (fr : Frame) (bb : raw_bbox) (t : Tracker) :
  tracking_active g = true -> tracker g = Some t ->
  track fr (false, bb) g =
    (Ret tt, set_tracking_active false g,
     [TrackerUpdate fr; PutText "TRACKING LOST - Draw new box" (10, 30) RED]).
Proof.
  intros Ha Ht. destruct g, bb as [[[b0 b1] b2] b3]; cbn in *; subst. reflexivity.
Qed.

(** The trace of a pass on which the tracker reports a box. *)
Lemma track_success (g : globals) (fr : Frame) (b0 b1 b2 b3 : pynum) (t : Tracker)
    (x y w h fin_left fin_right fin_top fin_bottom : Z) :
  tracking_active g = true -> tracker g = Some t ->
  py_int b0 = Ret x -> py_int b1 = Ret y -> py_int b2 = Ret w -> py_int b3 = Ret h ->
  fins (x + w / 2) (y + h / 2) (frame_w fr) (frame_h fr)
    = Ret (fin_left, fin_right, fin_top, fin_bottom) ->
  track fr (true, (b0, b1, b2, b3)) g =
    (Ret tt, g,
     TrackerUpdate fr
       :: Console (MsgFinAngles fin_left fin_right fin_top fin_bottom)
       :: (if is_some (ser g)
           then [SerialWrite (command fin_left fin_right fin_top fin_bottom)]
           else [])
       ++ [Rectangle (x, y) (x + w, y + h) GREEN;
           Line (x + w / 2 - 30, y + h / 2) (x + w / 2 + 30, y + h / 2) GREEN;
           Line (x + w / 2, y + h / 2 - 30) (x + w / 2, y + h / 2 + 30) GREEN;
           Circle (x + w / 2, y + h / 2) 5 GREEN;
           Circle (x + w / 2, y + h / 2) 5 WHITE;
           PutText "TRACKING" (x, y - 10) GREEN;
           PutText ("Center: (" ++ py_str (x + w / 2) ++ ", " ++ py_str (y + h / 2) ++ ")")
             (10, 30) GREEN]).
Proof.
  intros Ha Ht H0 H1 H2 H3 Hf.
  unfold track, bind, gets, lift, emit, ret, draw_crosshair.
  rewrite Ha, Ht. cbn [andb is_some]. rewrite H0, H1, H2, H3, Hf.
  destruct (ser g); reflexivity.
Qed.

Lemma overlays_run (g : globals) :
  result_of (overlays g) = Ret tt /\ state_of (overlays g) = g.
Proof.
  unfold overlays, bind, gets, emit, ret, result_of, state_of.
  destruct g as [d sp ep tr ta s]; cbn.
  destruct d, sp, ep, ta; cbn; split; reflexivity.
Qed.

Lemma guarded_result (m : M unit) (g : globals) : result_of (guarded m g) = Ret tt.
Proof. unfold guarded, result_of. destruct (m g) as [[[[] | e] g1] o1]; reflexivity. Qed.

Lemma deliver_result (evs : list pointer_event) (param : params) (g : globals) :
  result_of (deliver evs param g) = Ret tt.
Proof.
  revert g. induction evs as [ | [[[event x] y] flags] rest IH]; intros g; cbn [deliver].
  - reflexivity.
  - rewrite bind_run, guarded_result. cbn. apply IH.
Qed.

Lemma reset_run (g : globals) :
  reset g =
    (Ret tt,
     {| drawing := false; start_point := None; end_point := None;
        tracker := None; tracking_active := false; ser := ser g |},
     []).
Proof. reflexivity. Qed.

(** One pass of the loop, once the tracking step has gone through. *)
Lemma iteration_run (i : iter_input) (fr : Frame) (g : globals) :
  grabbed i = Some fr ->
  result_of (track fr (update i) g) = Ret tt ->
  let g1 := state_of (track fr (update i) g) in
  let g2 := state_of (deliver (events i) {| frame := Some fr |} g1) in
  let key := Z.land (key_code i) 255 in
  iteration i g =
    (Ret (key =? ord_q),
     (if key =? ord_q then g2 else if key =? ord_r then state_of (reset g2) else g2),
     trace_of (track fr (update i) g) ++ trace_of (overlays g1) ++
     ImShow fr :: trace_of (deliver (events i) {| frame := Some fr |} g1)).
Proof.
  intros Hg Ht g1 g2 key. unfold iteration. rewrite Hg.
  rewrite bind_run, Ht. fold g1.
  destruct (overlays_run g1) as [Ho Hs].
  rewrite bind_run, Ho, Hs.
  rewrite bind_run. cbn [emit result_of state_of trace_of fst snd].
  unfold waitKey. rewrite bind_run.
  rewrite bind_run, deliver_result. fold g2.
  cbn [ret result_of state_of trace_of fst snd]. fold key.
  destruct (key =? ord_q); [ | destruct (key =? ord_r) ];
    cbn [reset ret bind modify result_of state_of trace_of fst snd];
    rewrite ?app_nil_r; reflexivity.
Qed.


(** Inside the frame no fin angle exceeds [MAX_DEFLECTION]. *)
Lemma fins_in_frame (center_x center_y fw fh : Z) :
  0 < fw < 2 ^ 52 -> 0 < fh < 2 ^ 52 ->
  0 <= center_x <= fw -> 0 <= center_y <= fh ->
  exists l r t b,
    fins center_x center_y fw fh = Ret (l, r, t, b) /\
    Z.abs l <= 30 /\ Z.abs r <= 30 /\ Z.abs t <= 30 /\ Z.abs b <= 30.
Proof.
  intros Hw Hh Hx Hy.
  destruct (error_of_in_frame center_x fw Hw Hx) as (ex & Hex & Hbx).
  destruct (error_of_in_frame center_y fh Hh Hy) as (ey & Hey & Hby).
  assert (HB : representable (15 * 1) (0 + 1)) by repr.
  destruct (fin_of_bounded _ 1 0 (is_bounded_neg _ _ _ Hbx) HB ltac:(lia)) as [Hl Hl'].
  destruct (fin_of_bounded _ 1 0 Hbx HB ltac:(lia)) as [Hr Hr'].
  destruct (fin_of_bounded _ 1 0 (is_bounded_neg _ _ _ Hby) HB ltac:(lia)) as [Ht Ht'].
  destruct (fin_of_bounded _ 1 0 Hby HB ltac:(lia)) as [Hb Hb'].
  do 4 eexists. unfold fins. rewrite Hex, Hey. cbn [res_bind].
  rewrite Hl, Hr, Ht, Hb. cbn [res_bind].
  split; [ reflexivity | ].
  change (15 * 1 * 2 ^ (0 + 1)) with 30 in *. repeat split; assumption.
Qed.

Lemma camera_loop_blind (w : world) : ser_blind (camera_loop w).
Proof.
  unfold camera_loop. destruct (negb (camera_opens w)); repeat blind_step.
  apply loop_blind.
Qed.

Lemma camera_loop_off_wire (w : world) : obeys no_port off_wire (camera_loop w).
Proof.
  unfold camera_loop, no_port, off_wire.
  destruct (negb (camera_opens w)); repeat obeys_step.
  apply loop_off_wire.
Qed.

Lemma serial_init_run (w : world) (g : globals) :
  serial_init w g =
    (Ret tt,
     set_ser (if serial_opens w
              then Some {| port := SERIAL_PORT; baudrate := BAUD_RATE |}
              else None) g,
     SerialOpen SERIAL_PORT BAUD_RATE
       :: (if serial_opens w
           then [Sleep 2; Console MsgSerialConnected]
           else [Console MsgSerialNotConnected])).
Proof. unfold serial_init. destruct (serial_opens w); reflexivity. Qed.

Lemma overlays_quiet : obeys (fun _ => True) quiet overlays.
Proof. unfold overlays, quiet. repeat obeys_step; split; reflexivity. Qed.

Lemma callback_quiet (event x y flags : Z) (param : params) :
  obeys (fun _ => True) quiet (select_roi_callback event x y flags param).
Proof.
  unfold select_roi_callback, init_tracker, unpack, quiet.
  repeat obeys_step; split; reflexivity.
Qed.

Lemma deliver_quiet (evs : list pointer_event) (param : params) :
  obeys (fun _ => True) quiet (deliver evs param).
Proof.
  induction evs as [ | [[[event x] y] flags] rest IH]; cbn.
  - apply obeys_ret.
  - apply obeys_bind; [ | intros _; exact IH ].
    apply obeys_guarded; [ intros e; split; reflexivity | apply callback_quiet ].
Qed.

Lemma count_app (p : effect -> bool) (o1 o2 : list effect) :
  count p (o1 ++ o2) = (count p o1 + count p o2)%nat.
Proof. unfold count. rewrite filter_app, length_app. reflexivity. Qed.

Lemma count_none (p : effect -> bool) (o : list effect) :
  Forall (fun e => p e = false) o -> count p o = 0%nat.
Proof.
  unfold count. induction 1 as [ | e o He _ IH]; cbn; [ reflexivity | ].
  rewrite He. exact IH.
Qed.

Lemma deliver_moves (pts : list Point) (param : params) (g : globals) :
  drawing g = true -> tracking_active g = false ->
  drawing (state_of (deliver (moves pts) param g)) = true /\
  tracking_active (state_of (deliver (moves pts) param g)) = false /\
  start_point (state_of (deliver (moves pts) param g)) = start_point g /\
  trace_of (deliver (moves pts) param g) = [].
Proof.
  revert g. induction pts as [ | [px py] rest IH]; intros g Hd Ha.
  - cbn. auto.
  - cbn [moves List.map deliver fst snd]. fold (moves rest).
    assert (Hstep : guarded (select_roi_callback EVENT_MOUSEMOVE px py 0 param) g =
                    (Ret tt, set_end_point (Some (px, py)) g, [])).
    { unfold guarded, select_roi_callback, bind, gets, modify. cbn. rewrite Hd. reflexivity. }
    rewrite bind_run, Hstep. cbn [result_of state_of trace_of fst snd app].
    apply (IH (set_end_point (Some (px, py)) g)); assumption.
Qed.

(** The model computes: fin angles for some boxes, as CPython gives them. *)
Example fins_hd : fins 333 77 1280 720 = Ret (14, -14, 23, -23).
Proof. vm_compute. reflexivity. Qed.

Example fins_odd_frame : fins (-5) 7 641 479 = Ret (30, -30, 29, -29).
Proof. vm_compute. reflexivity. Qed.

Example fins_tenth : fins 352 240 640 480 = Ret (-3, 3, 0, 0).
Proof. vm_compute. reflexivity. Qed.

(* ================================================================== *)
(** ** The claims *)
(* ================================================================== *)

(** C1, as the code has it.  A release that ends a drag spanning more than
    10 pixels in both directions computes the box [(min x, min y, |dx|, |dy|)]
    whatever the direction of the drag, creates a tracker and calls its
    [init] exactly once, with that box.  When [init] returns the program is
    left tracking.  When [init] raises, line 54 is not reached: the callback
    ends with [cv2.error], the new tracker stays in [tracker] and
    [tracking_active] is as it was, so the state is Idle after a press. *)
Theorem release_starts_tracking (g : globals) (x1 y1 x2 y2 flags : Z) (f : Frame) :
  start_point g = Some (x1, y1) ->
  10 < Z.abs (x2 - x1) ->
  10 < Z.abs (y2 - y1) ->
  let bbox := (Z.min x1 x2, Z.min y1 y2, Z.abs (x2 - x1), Z.abs (y2 - y1)) in
  let out := select_roi_callback EVENT_LBUTTONUP x2 y2 flags {| frame := Some f |} g in
  count is_init (trace_of out) = 1%nat /\
  In (TrackerInit f bbox) (trace_of out) /\
  drawing (state_of out) = false /\
  (csrt_accepts f bbox = true ->
   result_of out = Ret tt /\
   trace_of out = [TrackerCreate; TrackerInit f bbox; Console MsgTrackerInitialized;
                   Console (MsgTrackingObjectAt bbox)] /\
   tracker (state_of out) = Some {| trk_init := Some (f, bbox) |} /\
   tracking_active (state_of out) = true /\
   selection_state (state_of out) = Tracking) /\
  (csrt_accepts f bbox = false ->
   result_of out = Raise CvError /\
   trace_of out = [TrackerCreate; TrackerInit f bbox] /\
   tracker (state_of out) = Some {| trk_init := None |} /\
   tracking_active (state_of out) = tracking_active g /\
   (tracking_active g = false -> selection_state (state_of out) = Idle)).
Proof.
  intros Hs Hw Hh bbox out.
  assert (Hout : out =
    if csrt_accepts f bbox then
      (Ret tt,
       {| drawing := false; start_point := Some (x1, y1); end_point := Some (x2, y2);
          tracker := Some {| trk_init := Some (f, bbox) |};
          tracking_active := true; ser := ser g |},
       [TrackerCreate; TrackerInit f bbox; Console MsgTrackerInitialized;
        Console (MsgTrackingObjectAt bbox)])
    else
      (Raise CvError,
       {| drawing := false; start_point := Some (x1, y1); end_point := Some (x2, y2);
          tracker := Some {| trk_init := None |};
          tracking_active := tracking_active g; ser := ser g |},
       [TrackerCreate; TrackerInit f bbox])).
  { unfold out, select_roi_callback, init_tracker. run. rewrite Hs. cbn.
    apply Z.ltb_lt in Hw, Hh. rewrite Hw, Hh. cbn. fold bbox.
    destruct (csrt_accepts f bbox); reflexivity. }
  rewrite Hout.
  destruct (csrt_accepts f bbox); cbn.
  - repeat split; auto; discriminate.
  - repeat split; auto; try discriminate.
    intros Ha. unfold selection_state. cbn. rewrite Ha. reflexivity.
Qed.

Lemma release_starts_tracking_witness :
  start_point dragging0 = Some (50, 50) /\
  10 < Z.abs (10 - 50) /\ 10 < Z.abs (10 - 50) /\
  csrt_accepts vga (10, 10, 40, 40) = true /\
  trace_of (select_roi_callback EVENT_LBUTTONUP 10 10 0 {| frame := Some vga |} dragging0)
    = [TrackerCreate; TrackerInit vga (10, 10, 40, 40); Console MsgTrackerInitialized;
       Console (MsgTrackingObjectAt (10, 10, 40, 40))] /\
  selection_state
    (state_of (select_roi_callback EVENT_LBUTTONUP 10 10 0 {| frame := Some vga |} dragging0))
    = Tracking.
Proof.
  split; [ reflexivity | ]. split; [ reflexivity | ]. split; [ reflexivity | ].
  split; [ reflexivity | ].
  pose proof (proj1 (proj2 (proj2 (proj2 (release_starts_tracking dragging0 50 50 10 10 0 vga
                                            eq_refl eq_refl eq_refl)))) eq_refl) as H.
  split; [ exact (proj1 (proj2 H)) | exact (proj2 (proj2 (proj2 (proj2 H)))) ].
Defined.

(** C1, as stated, fails: a drag from (639, 479) to (700, 600) over a
    640 x 480 image spans 61 by 121 pixels, the tracker's [init] is called
    with the box (639, 479, 61, 121) and raises, and the program is not left
    tracking. *)
Lemma release_outside_frame_does_not_track :
  select_roi_callback EVENT_LBUTTONUP 700 600 0 {| frame := Some vga |}
    (state_of (select_roi_callback EVENT_LBUTTONDOWN 639 479 0 {| frame := Some vga |}
                 initial_globals)) =
    (Raise CvError,
     {| drawing := false; start_point := Some (639, 479); end_point := Some (700, 600);
        tracker := Some {| trk_init := None |}; tracking_active := false; ser := None |},
     [TrackerCreate; TrackerInit vga (639, 479, 61, 121)]) /\
  ~ (forall (g : globals) (x1 y1 x2 y2 flags : Z) (f : Frame),
       start_point g = Some (x1, y1) ->
       10 < Z.abs (x2 - x1) -> 10 < Z.abs (y2 - y1) ->
       tracking_active
         (state_of (select_roi_callback EVENT_LBUTTONUP x2 y2 flags {| frame := Some f |} g))
         = true).
Proof.
  assert (Hrun :
    select_roi_callback EVENT_LBUTTONUP 700 600 0 {| frame := Some vga |}
      (state_of (select_roi_callback EVENT_LBUTTONDOWN 639 479 0 {| frame := Some vga |}
                   initial_globals)) =
      (Raise CvError,
       {| drawing := false; start_point := Some (639, 479); end_point := Some (700, 600);
          tracker := Some {| trk_init := None |}; tracking_active := false; ser := None |},
       [TrackerCreate; TrackerInit vga (639, 479, 61, 121)])) by reflexivity.
  split; [ exact Hrun | ].
  intros H.
  specialize (H (state_of (select_roi_callback EVENT_LBUTTONDOWN 639 479 0
                             {| frame := Some vga |} initial_globals))
                639 479 700 600 0 vga eq_refl eq_refl eq_refl).
  rewrite Hrun in H. discriminate H.
Qed.

(** C4.  A release whose box is at most 10 pixels wide or at most 10 pixels
    high starts no tracker: nothing is called, [drawing] is cleared and
    [tracking_active] and the tracker are left as they were, so the state is
    Idle when no tracking was going on. *)
Theorem small_release_is_discarded (g : globals) (x1 y1 x2 y2 flags : Z) (param : params) :
  start_point g = Some (x1, y1) ->
  Z.abs (x2 - x1) <= 10 \/ Z.abs (y2 - y1) <= 10 ->
  let out := select_roi_callback EVENT_LBUTTONUP x2 y2 flags param g in
  result_of out = Ret tt /\
  trace_of out = [] /\
  drawing (state_of out) = false /\
  tracking_active (state_of out) = tracking_active g /\
  tracker (state_of out) = tracker g /\
  (tracking_active g = false -> selection_state (state_of out) = Idle).
Proof.
  intros Hs Hsmall out.
  assert (Hout : out =
    (Ret tt,
     {| drawing := false; start_point := Some (x1, y1); end_point := Some (x2, y2);
        tracker := tracker g; tracking_active := tracking_active g; ser := ser g |},
     [])).
  { unfold out, select_roi_callback. run. rewrite Hs. cbn.
    assert (Hc : (10 <? Z.abs (x2 - x1)) && (10 <? Z.abs (y2 - y1)) = false).
    { apply andb_false_iff. destruct Hsmall; [ left | right ]; apply Z.ltb_ge; assumption. }
    rewrite Hc. reflexivity. }
  rewrite Hout. repeat split.
  unfold selection_state, state_of. cbn. intros ->. reflexivity.
Qed.

Lemma small_release_is_discarded_witness :
  start_point dragging0 = Some (50, 50) /\
  (Z.abs (90 - 50) <= 10 \/ Z.abs (60 - 50) <= 10) /\
  trace_of (select_roi_callback EVENT_LBUTTONUP 90 60 0 {| frame := Some vga |} dragging0) = [] /\
  selection_state
    (state_of (select_roi_callback EVENT_LBUTTONUP 90 60 0 {| frame := Some vga |} dragging0))
    = Idle.
Proof.
  assert (H : Z.abs (90 - 50) <= 10 \/ Z.abs (60 - 50) <= 10) by (right; cbn; lia).
  split; [ reflexivity | ]. split; [ exact H | ].
  pose proof (small_release_is_discarded dragging0 50 50 90 60 0 {| frame := Some vga |}
                eq_refl H) as (_ & Ht & _ & _ & _ & Hi).
  split; [ exact Ht | exact (Hi eq_refl) ].
Defined.

(** C9.  A press at [p], whatever the state, starts a drag from [p] to [p]
    and switches tracking off; through the pointer moves that follow, a pass
    of the loop neither asks the tracker nor writes to the serial port. *)
Theorem press_starts_dragging (g : globals) (x y flags : Z) (param : params)
    (pts : list Point) (fr : Frame) (upd : bool * raw_bbox) :
  let out := select_roi_callback EVENT_LBUTTONDOWN x y flags param g in
  let dragged := state_of (deliver (moves pts) param (state_of out)) in
  result_of out = Ret tt /\
  trace_of out = [] /\
  selection_state (state_of out) = Dragging (Some (x, y)) (Some (x, y)) /\
  tracking_active (state_of out) = false /\
  drawing dragged = true /\
  start_point dragged = Some (x, y) /\
  tracking_active dragged = false /\
  track fr upd dragged = (Ret tt, dragged, []).
Proof.
  intros out dragged.
  assert (Hout : out =
    (Ret tt,
     {| drawing := true; start_point := Some (x, y); end_point := Some (x, y);
        tracker := tracker g; tracking_active := false; ser := ser g |},
     [])) by reflexivity.
  destruct (deliver_moves pts param (state_of out)) as (Hd & Ha & Hsp & _);
    [ rewrite Hout; reflexivity | rewrite Hout; reflexivity | ].
  fold dragged in Hd, Ha, Hsp.
  split; [ rewrite Hout; reflexivity | ].
  split; [ rewrite Hout; reflexivity | ].
  split; [ rewrite Hout; reflexivity | ].
  split; [ rewrite Hout; reflexivity | ].
  split; [ exact Hd | ].
  split; [ rewrite Hsp, Hout; reflexivity | ].
  split; [ exact Ha | ].
  apply track_inactive, Ha.
Qed.

(** C8.  When the tracker reports failure the tracking step makes that one
    update call, shows the notice and clears [tracking_active]; it raises
    nothing and the whole pass contains one update and no serial write. *)
Theorem lost_tracking_ends_tracking (g : globals) (i : iter_input) (fr : Frame)
    (bb : raw_bbox) (t : Tracker) :
  grabbed i = Some fr ->
  update i = (false, bb) ->
  tracking_active g = true ->
  tracker g = Some t ->
  track fr (update i) g =
    (Ret tt, set_tracking_active false g,
     [TrackerUpdate fr; PutText "TRACKING LOST - Draw new box" (10, 30) RED]) /\
  tracking_active (state_of (track fr (update i) g)) = false /\
  (exists stop, result_of (iteration i g) = Ret stop) /\
  count is_update (trace_of (iteration i g)) = 1%nat /\
  count is_write (trace_of (iteration i g)) = 0%nat.
Proof.
  intros Hg Hu Ha Ht.
  pose proof (track_lost g fr bb t Ha Ht) as Hl. rewrite <- Hu in Hl.
  split; [ exact Hl | ]. split; [ rewrite Hl; reflexivity | ].
  pose proof (iteration_run i fr g Hg ltac:(rewrite Hl; reflexivity)) as Hrun.
  cbv zeta in Hrun. rewrite Hrun. unfold result_of, trace_of, state_of. cbn [fst snd].
  split; [ eexists; reflexivity | ].
  rewrite Hl. cbn [fst snd].
  destruct (overlays_quiet (set_tracking_active false g) I) as [_ Ho].
  destruct (deliver_quiet (events i) {| frame := Some fr |} (set_tracking_active false g) I)
    as [_ Hd].
  unfold trace_of, state_of in Ho, Hd. cbn [fst snd] in Ho, Hd.
  assert (Hq : forall p o, (p = is_update \/ p = is_write) -> Forall quiet o -> count p o = 0%nat).
  { intros p o Hp Hq. apply count_none. eapply Forall_impl; [ | exact Hq ].
    intros e [H1 H2]. destruct Hp; subst; assumption. }
  split.
  - change (?a :: ?b :: ?c ++ ?d) with ([a; b] ++ c ++ d).
    rewrite !count_app.
    change (ImShow fr :: ?d) with ([ImShow fr] ++ d). rewrite count_app.
    rewrite (Hq is_update _ (or_introl eq_refl) Ho), (Hq is_update _ (or_introl eq_refl) Hd).
    reflexivity.
  - change (?a :: ?b :: ?c ++ ?d) with ([a; b] ++ c ++ d).
    rewrite !count_app.
    change (ImShow fr :: ?d) with ([ImShow fr] ++ d). rewrite count_app.
    rewrite (Hq is_write _ (or_intror eq_refl) Ho), (Hq is_write _ (or_intror eq_refl) Hd).
    reflexivity.
Qed.

Lemma lost_tracking_ends_tracking_witness :
  let i := {| grabbed := Some vga; update := (false, box 0 0 0 0);
              events := []; key_code := -1 |} in
  grabbed i = Some vga /\ update i = (false, box 0 0 0 0) /\
  tracking_active tracking0 = true /\
  tracker tracking0 = Some {| trk_init := Some (vga, (10, 10, 40, 40)) |} /\
  tracking_active (state_of (track vga (update i) tracking0)) = false /\
  count is_write (trace_of (iteration i tracking0)) = 0%nat.
Proof.
  intros i.
  pose proof (lost_tracking_ends_tracking tracking0 i vga (box 0 0 0 0)
                {| trk_init := Some (vga, (10, 10, 40, 40)) |}
                eq_refl eq_refl eq_refl eq_refl) as (_ & Ha & _ & _ & Hw).
  split; [ reflexivity | ]. split; [ reflexivity | ].
  split; [ reflexivity | ]. split; [ reflexivity | ].
  split; [ exact Ha | exact Hw ].
Defined.

(** C6.  A pass that reads the key 'r' ends Idle with everything cleared:
    [tracking_active] and [drawing] false, the tracker and both points
    [None]; this holds from every state and whatever pointer events arrived
    during the pass. *)
Theorem reset_key_returns_to_idle (g : globals) (i : iter_input) (fr : Frame) :
  grabbed i = Some fr ->
  Z.land (key_code i) 255 = ord_r ->
  result_of (track fr (update i) g) = Ret tt ->
  let out := iteration i g in
  result_of out = Ret false /\
  tracking_active (state_of out) = false /\
  tracker (state_of out) = None /\
  drawing (state_of out) = false /\
  start_point (state_of out) = None /\
  end_point (state_of out) = None /\
  selection_state (state_of out) = Idle.
Proof.
  intros Hg Hk Ht out.
  pose proof (iteration_run i fr g Hg Ht) as Hrun. cbv zeta in Hrun.
  rewrite Hk in Hrun. change (ord_r =? ord_q) with false in Hrun.
  change (ord_r =? ord_r) with true in Hrun. cbv iota in Hrun.
  unfold out. rewrite Hrun. rewrite reset_run.
  repeat split.
Qed.

Lemma reset_key_returns_to_idle_witness :
  let i := {| grabbed := Some vga; update := (true, box 300 200 40 80);
              events := [(EVENT_MOUSEMOVE, 5, 5, 0)]; key_code := 114 |} in
  grabbed i = Some vga /\ Z.land (key_code i) 255 = ord_r /\
  result_of (track vga (update i) tracking0) = Ret tt /\
  selection_state (state_of (iteration i tracking0)) = Idle /\
  tracker (state_of (iteration i tracking0)) = None.
Proof.
  intros i.
  assert (Ht : result_of (track vga (update i) tracking0) = Ret tt) by (vm_compute; reflexivity).
  pose proof (reset_key_returns_to_idle tracking0 i vga eq_refl eq_refl Ht)
    as (_ & _ & Htr & _ & _ & _ & Hi).
  split; [ reflexivity | ]. split; [ reflexivity | ]. split; [ exact Ht | ].
  split; [ exact Hi | exact Htr ].
Defined.

(** C7.  When the serial port did not open, [ser] stays [None] to the end of
    the run, no pass of the loop writes to (or closes) the port, and the run
    ends the same way, normally or with the same exception, as it would
    have with the port open. *)
Theorem no_serial_no_write (w : world) (g : globals) :
  serial_opens w = false ->
  ser (state_of (main w g)) = None /\
  Forall off_wire (trace_of (main w g)) /\
  (forall i g', ser g' = None -> Forall off_wire (trace_of (iteration i g'))) /\
  (forall opened,
     result_of (main {| serial_opens := opened; camera_opens := camera_opens w;
                        passes := passes w |} g)
     = result_of (main w g)).
Proof.
  intros Hs.
  assert (Hmain : forall w0, main w0 g =
            (result_of (camera_loop w0 (state_of (serial_init w0 g))),
             state_of (camera_loop w0 (state_of (serial_init w0 g))),
             trace_of (serial_init w0 g)
               ++ trace_of (camera_loop w0 (state_of (serial_init w0 g))))).
  { intros w0. unfold main. rewrite bind_run. rewrite serial_init_run. reflexivity. }
  rewrite (Hmain w). rewrite serial_init_run, Hs.
  unfold result_of at 1, state_of at 1, trace_of at 1. cbn [fst snd].
  destruct (camera_loop_off_wire w (set_ser None g) eq_refl) as [Hser Htr].
  split; [ exact Hser | ].
  split.
  { unfold state_of at 1, trace_of at 1. cbn [fst snd]. repeat constructor. exact Htr. }
  split.
  { intros i g' Hg'. exact (proj2 (iteration_off_wire i g' Hg')). }
  intros opened. rewrite (Hmain {| serial_opens := opened |}).
  unfold result_of at 1. cbn [fst snd]. rewrite serial_init_run.
  unfold state_of at 1 3. cbn [fst snd serial_opens].
  assert (Hcl : camera_loop {| serial_opens := opened; camera_opens := camera_opens w;
                               passes := passes w |} = camera_loop w) by reflexivity.
  rewrite Hcl.
  apply (camera_loop_blind w). reflexivity.
Qed.

Lemma no_serial_no_write_witness :
  let w := {| serial_opens := false; camera_opens := true;
              passes := [ {| grabbed := Some vga; update := (true, box 300 200 40 80);
                             events := []; key_code := -1 |};
                          {| grabbed := Some vga; update := (true, box 302 201 40 80);
                             events := []; key_code := 113 |} ] |} in
  serial_opens w = false /\
  ser (state_of (main w tracking0)) = None /\
  Forall off_wire (trace_of (main w tracking0)).
Proof.
  intros w.
  pose proof (no_serial_no_write w tracking0 eq_refl) as (H1 & H2 & _).
  split; [ reflexivity | ]. split; [ exact H1 | exact H2 ].
Defined.

(** C10.  Whenever the four fin angles are computed they are antisymmetric:
    [fin_left = - fin_right] and [fin_top = - fin_bottom]. *)
Theorem fins_antisymmetric (center_x center_y fw fh : Z) (l r t b : Z) :
  fins center_x center_y fw fh = Ret (l, r, t, b) ->
  l = - r /\ t = - b.
Proof.
  unfold fins.
  destruct (error_of center_x fw) as [ex | e]; [ | discriminate ].
  destruct (error_of center_y fh) as [ey | e]; [ | discriminate ].
  cbn [res_bind]. rewrite !fin_of_neg.
  destruct (fin_of ex) as [vr | e]; [ | discriminate ].
  destruct (fin_of ey) as [vb | e]; [ | discriminate ].
  cbn. intros H. injection H as <- <- <- <-. split; reflexivity.
Qed.

Lemma fins_antisymmetric_witness :
  fins 333 77 640 480 = Ret (-1, 1, 20, -20) /\ -1 = - 1 /\ 20 = - -20.
Proof.
  assert (H : fins 333 77 640 480 = Ret (-1, 1, 20, -20)) by (vm_compute; reflexivity).
  split; [ exact H | ].
  exact (fins_antisymmetric 333 77 640 480 (-1) 1 20 (-20) H).
Defined.




(** C3, as the code has it.  The command is within 30 in every component
    whenever the centre of the reported box lies inside the frame; nothing
    clamps it otherwise. *)
Theorem command_within_limit_inside_frame (g : globals) (fr : Frame) (t : Tracker)
    (b0 b1 b2 b3 : pynum) (x y w h : Z) :
  tracking_active g = true -> tracker g = Some t ->
  py_int b0 = Ret x -> py_int b1 = Ret y -> py_int b2 = Ret w -> py_int b3 = Ret h ->
  0 < frame_w fr < 2 ^ 52 -> 0 < frame_h fr < 2 ^ 52 ->
  0 <= x + w / 2 <= frame_w fr ->
  0 <= y + h / 2 <= frame_h fr ->
  exists l r tp bt,
    fins (x + w / 2) (y + h / 2) (frame_w fr) (frame_h fr) = Ret (l, r, tp, bt) /\
    Z.abs l <= MAX_DEFLECTION /\ Z.abs r <= MAX_DEFLECTION /\
    Z.abs tp <= MAX_DEFLECTION /\ Z.abs bt <= MAX_DEFLECTION /\
    result_of (track fr (true, (b0, b1, b2, b3)) g) = Ret tt /\
    forall data,
      In (SerialWrite data) (trace_of (track fr (true, (b0, b1, b2, b3)) g)) ->
      data = command l r tp bt.
Proof.
  intros Ha Ht H0 H1 H2 H3 Hfw Hfh Hcx Hcy.
  destruct (fins_in_frame _ _ _ _ Hfw Hfh Hcx Hcy) as (l & r & tp & bt & Hf & Hl & Hr & Htp & Hbt).
  exists l, r, tp, bt. repeat (split; [ assumption | ]).
  rewrite (track_success g fr b0 b1 b2 b3 t x y w h l r tp bt Ha Ht H0 H1 H2 H3 Hf).
  split; [ reflexivity | ].
  unfold trace_of. cbn [snd]. intros data Hin.
  destruct (is_some (ser g)); cbn in Hin;
    repeat (destruct Hin as [Hin | Hin]; [ try discriminate | ]);
    try contradiction; injection Hin as <-; reflexivity.
Qed.

Lemma command_within_limit_inside_frame_witness :
  0 < frame_w vga < 2 ^ 52 /\ 0 < frame_h vga < 2 ^ 52 /\
  0 <= 300 + 40 / 2 <= frame_w vga /\ 0 <= 200 + 80 / 2 <= frame_h vga /\
  exists l r tp bt,
    fins (300 + 40 / 2) (200 + 80 / 2) (frame_w vga) (frame_h vga) = Ret (l, r, tp, bt) /\
    Z.abs l <= MAX_DEFLECTION /\ Z.abs r <= MAX_DEFLECTION /\
    Z.abs tp <= MAX_DEFLECTION /\ Z.abs bt <= MAX_DEFLECTION.
Proof.
  assert (Hfw : 0 < frame_w vga < 2 ^ 52) by (split; reflexivity).
  assert (Hfh : 0 < frame_h vga < 2 ^ 52) by (split; reflexivity).
  assert (Hcx : 0 <= 300 + 40 / 2 <= frame_w vga) by (split; discriminate).
  assert (Hcy : 0 <= 200 + 80 / 2 <= frame_h vga) by (split; discriminate).
  repeat (split; [ assumption | ]).
  destruct (command_within_limit_inside_frame tracking0 vga
              {| trk_init := Some (vga, (10, 10, 40, 40)) |}
              (PyInt 300) (PyInt 200) (PyInt 40) (PyInt 80) 300 200 40 80
              eq_refl eq_refl eq_refl eq_refl eq_refl eq_refl Hfw Hfh Hcx Hcy)
    as (l & r & tp & bt & Hf & Hl & Hr & Htp & Hbt & _).
  exists l, r, tp, bt. repeat (split; [ assumption | ]). assumption.
Defined.

(** C3, as stated, fails: a box centred at x = 1280 in a 640 x 480 frame
    makes the program send [<-90,90,15,-15>]. *)
Lemma command_exceeds_limit_outside_frame :
  track vga (true, box 1260 100 40 40) tracking0 =
    (Ret tt, tracking0,
     [TrackerUpdate vga;
      Console (MsgFinAngles (-90) 90 15 (-15));
      SerialWrite ("<-90,90,15,-15>" ++ newline);
      Rectangle (1260, 100) (1300, 140) GREEN;
      Line (1250, 120) (1310, 120) GREEN;
      Line (1280, 90) (1280, 150) GREEN;
      Circle (1280, 120) 5 GREEN;
      Circle (1280, 120) 5 WHITE;
      PutText "TRACKING" (1260, 90) GREEN;
      PutText "Center: (1280, 120)" (10, 30) GREEN]) /\
  ~ (forall (g : globals) (fr : Frame) (bb : raw_bbox) (l r t b : Z),
       In (SerialWrite (command l r t b)) (trace_of (track fr (true, bb) g)) ->
       Z.abs l <= MAX_DEFLECTION /\ Z.abs r <= MAX_DEFLECTION /\
       Z.abs t <= MAX_DEFLECTION /\ Z.abs b <= MAX_DEFLECTION).
Proof.
  assert (Hrun : track vga (true, box 1260 100 40 40) tracking0 =
    (Ret tt, tracking0,
     [TrackerUpdate vga;
      Console (MsgFinAngles (-90) 90 15 (-15));
      SerialWrite ("<-90,90,15,-15>" ++ newline);
      Rectangle (1260, 100) (1300, 140) GREEN;
      Line (1250, 120) (1310, 120) GREEN;
      Line (1280, 90) (1280, 150) GREEN;
      Circle (1280, 120) 5 GREEN;
      Circle (1280, 120) 5 WHITE;
      PutText "TRACKING" (1260, 90) GREEN;
      PutText "Center: (1280, 120)" (10, 30) GREEN])) by (vm_compute; reflexivity).
  split; [ exact Hrun | ].
  intros H.
  destruct (H tracking0 vga (box 1260 100 40 40) (-90) 90 15 (-15)) as (Hl & _).
  - rewrite Hrun. unfold trace_of. cbn [snd]. right. right. left. reflexivity.
  - vm_compute in Hl. apply Hl. reflexivity.
Qed.

Lemma fin_of_zero (s : bool) : fin_of (S754_zero s) = Ret 0.
Proof. reflexivity. Qed.

Lemma fin_of_one : fin_of one = Ret 30 /\ fin_of (PyFloat.neg one) = Ret (-30).
Proof. split; reflexivity. Qed.

(** C5.  With the tracked centre exactly at the centre of the frame both
    errors are [0.0] and the command sent is [<0,0,0,0>]; with the centre on
    the right edge the horizontal error is [1.0] and the fins are
    [fin_left = -30], [fin_right = 30]. *)
Theorem centre_and_edge_commands (fr : Frame) :
  0 < frame_w fr < 2 ^ 52 ->
  0 < frame_h fr < 2 ^ 52 ->
  (forall center_x center_y,
     2 * center_x = frame_w fr -> 2 * center_y = frame_h fr ->
     error_of center_x (frame_w fr) = Ret (S754_zero false) /\
     error_of center_y (frame_h fr) = Ret (S754_zero false) /\
     fins center_x center_y (frame_w fr) (frame_h fr) = Ret (0, 0, 0, 0) /\
     forall g t b0 b1 b2 b3 x y w h,
       tracking_active g = true -> tracker g = Some t -> ser g <> None ->
       py_int b0 = Ret x -> py_int b1 = Ret y -> py_int b2 = Ret w -> py_int b3 = Ret h ->
       x + w / 2 = center_x -> y + h / 2 = center_y ->
       result_of (track fr (true, (b0, b1, b2, b3)) g) = Ret tt /\
       In (SerialWrite ("<0,0,0,0>" ++ newline))
          (trace_of (track fr (true, (b0, b1, b2, b3)) g))) /\
  (forall center_y,
     0 <= center_y <= frame_h fr ->
     error_of (frame_w fr) (frame_w fr) = Ret one /\
     exists fin_top fin_bottom,
       fins (frame_w fr) center_y (frame_w fr) (frame_h fr)
         = Ret (-30, 30, fin_top, fin_bottom)).
Proof.
  intros Hfw Hfh.
  assert (H52 : 2 ^ 52 < 2 ^ 53) by reflexivity.
  split.
  - intros cx cy Hx Hy.
    pose proof (error_of_middle cx (frame_w fr) ltac:(lia) Hx) as Hex.
    pose proof (error_of_middle cy (frame_h fr) ltac:(lia) Hy) as Hey.
    assert (Hf : fins cx cy (frame_w fr) (frame_h fr) = Ret (0, 0, 0, 0)).
    { unfold fins. rewrite Hex, Hey. reflexivity. }
    repeat (split; [ assumption | ]).
    intros g t b0 b1 b2 b3 x y w h Ha Ht Hs H0 H1 H2 H3 Hcx Hcy.
    rewrite <- Hcx, <- Hcy in Hf.
    rewrite (track_success g fr b0 b1 b2 b3 t x y w h 0 0 0 0 Ha Ht H0 H1 H2 H3 Hf).
    split; [ reflexivity | ].
    unfold trace_of. cbn [snd]. destruct (ser g); [ | contradiction ].
    right. right. left. reflexivity.
  - intros cy Hy.
    pose proof (error_of_edge (frame_w fr) Hfw) as Hex.
    split; [ exact Hex | ].
    destruct (error_of_in_frame cy (frame_h fr) Hfh Hy) as (ey & Hey & Hby).
    assert (HB : representable (15 * 1) (0 + 1)) by repr.
    destruct (fin_of_bounded _ 1 0 (is_bounded_neg _ _ _ Hby) HB ltac:(lia)) as [Ht _].
    destruct (fin_of_bounded _ 1 0 Hby HB ltac:(lia)) as [Hb _].
    do 2 eexists. unfold fins. rewrite Hex, Hey. cbn [res_bind].
    rewrite (proj1 fin_of_one), (proj2 fin_of_one), Ht, Hb. reflexivity.
Qed.

Lemma centre_and_edge_commands_witness :
  0 < frame_w vga < 2 ^ 52 /\ 0 < frame_h vga < 2 ^ 52 /\
  fins 320 240 (frame_w vga) (frame_h vga) = Ret (0, 0, 0, 0) /\
  error_of (frame_w vga) (frame_w vga) = Ret one.
Proof.
  assert (Hfw : 0 < frame_w vga < 2 ^ 52) by (split; reflexivity).
  assert (Hfh : 0 < frame_h vga < 2 ^ 52) by (split; reflexivity).
  assert (Hy : 0 <= 240 <= frame_h vga) by (split; discriminate).
  destruct (centre_and_edge_commands vga Hfw Hfh) as [Hc He].
  split; [ exact Hfw | ]. split; [ exact Hfh | ].
  split.
  - exact (proj1 (proj2 (proj2 (Hc 320 240 eq_refl eq_refl)))).
  - exact (proj1 (He 240 Hy)).
Defined.

(* ================================================================== *)
(** ** Further properties of the selection callback                    *)
(* ================================================================== *)

(** X1.  Events other than left-button press and release change nothing,
    except a pointer move during a drag: a move outside a drag and every
    other event code (right button, wheel, ...) leave the globals as they
    are and call nothing. *)
Theorem other_events_are_ignored (g : globals) (event x y flags : Z) (param : params) :
  event <> EVENT_LBUTTONDOWN ->
  event <> EVENT_LBUTTONUP ->
  (event = EVENT_MOUSEMOVE -> drawing g = false) ->
  select_roi_callback event x y flags param g = (Ret tt, g, []).
Proof.
  intros Hd Hu Hm. unfold select_roi_callback.
  destruct (Z.eqb_spec event EVENT_LBUTTONDOWN) as [E | _]; [ contradiction | ].
  destruct (Z.eqb_spec event EVENT_LBUTTONUP) as [E | _]; [ contradiction | ].
  destruct (Z.eqb_spec event EVENT_MOUSEMOVE) as [E | _]; [ | reflexivity ].
  unfold bind, gets. cbn. rewrite (Hm E). reflexivity.
Qed.

Lemma other_events_are_ignored_witness :
  2 <> EVENT_LBUTTONDOWN /\ 2 <> EVENT_LBUTTONUP /\
  select_roi_callback 2 7 9 0 {| frame := Some vga |} tracking0 = (Ret tt, tracking0, []).
Proof.
  assert (H1 : 2 <> EVENT_LBUTTONDOWN) by discriminate.
  assert (H2 : 2 <> EVENT_LBUTTONUP) by discriminate.
  split; [ exact H1 | ]. split; [ exact H2 | ].
  apply (other_events_are_ignored tracking0 2 7 9 0 {| frame := Some vga |} H1 H2).
  discriminate.
Defined.

Lemma accepted_release_run (g : globals) (x1 y1 x2 y2 flags : Z) (f : Frame) :
  start_point g = Some (x1, y1) ->
  10 < Z.abs (x2 - x1) -> 10 < Z.abs (y2 - y1) ->
  let bbox := (Z.min x1 x2, Z.min y1 y2, Z.abs (x2 - x1), Z.abs (y2 - y1)) in
  select_roi_callback EVENT_LBUTTONUP x2 y2 flags {| frame := Some f |} g =
    if csrt_accepts f bbox then
      (Ret tt,
       {| drawing := false; start_point := Some (x1, y1); end_point := Some (x2, y2);
          tracker := Some {| trk_init := Some (f, bbox) |};
          tracking_active := true; ser := ser g |},
       [TrackerCreate; TrackerInit f bbox; Console MsgTrackerInitialized;
        Console (MsgTrackingObjectAt bbox)])
    else
      (Raise CvError,
       {| drawing := false; start_point := Some (x1, y1); end_point := Some (x2, y2);
          tracker := Some {| trk_init := None |};
          tracking_active := tracking_active g; ser := ser g |},
       [TrackerCreate; TrackerInit f bbox]).
Proof.
  intros Hs Hw Hh bbox.
  unfold select_roi_callback, init_tracker. run. rewrite Hs. cbn.
  apply Z.ltb_lt in Hw, Hh. rewrite Hw, Hh. cbn. fold bbox.
  destruct (csrt_accepts f bbox); reflexivity.
Qed.

Lemma small_release_run (g : globals) (x1 y1 x2 y2 flags : Z) (param : params) :
  start_point g = Some (x1, y1) ->
  Z.abs (x2 - x1) <= 10 \/ Z.abs (y2 - y1) <= 10 ->
  select_roi_callback EVENT_LBUTTONUP x2 y2 flags param g =
    (Ret tt,
     {| drawing := false; start_point := Some (x1, y1); end_point := Some (x2, y2);
        tracker := tracker g; tracking_active := tracking_active g; ser := ser g |},
     []).
Proof.
  intros Hs Hsmall.
  unfold select_roi_callback. run. rewrite Hs. cbn.
  assert (Hc : (10 <? Z.abs (x2 - x1)) && (10 <? Z.abs (y2 - y1)) = false).
  { apply andb_false_iff. destruct Hsmall; [ left | right ]; apply Z.ltb_ge; assumption. }
  rewrite Hc. reflexivity.
Qed.

Lemma last_cons {A} (a d : A) (l : list A) : List.last (a :: l) d = List.last l a.
Proof.
  revert a d. induction l as [ | b l IH]; intros a d; [ reflexivity | ].
  change (List.last (a :: b :: l) d) with (List.last (b :: l) d).
  rewrite (IH b d), (IH b a). reflexivity.
Qed.

Lemma deliver_app (evs1 evs2 : list pointer_event) (param : params) (g : globals) :
  deliver (evs1 ++ evs2) param g =
    (result_of (deliver evs2 param (state_of (deliver evs1 param g))),
     state_of (deliver evs2 param (state_of (deliver evs1 param g))),
     trace_of (deliver evs1 param g)
       ++ trace_of (deliver evs2 param (state_of (deliver evs1 param g)))).
Proof.
  revert g. induction evs1 as [ | [[[event x] y] flags] rest IH]; intros g.
  - cbn [app deliver ret state_of trace_of fst snd].
    destruct (deliver evs2 param g) as [[r g'] o]. reflexivity.
  - cbn [app deliver]. rewrite !bind_run, guarded_result. rewrite IH.
    cbn [result_of state_of trace_of fst snd]. rewrite app_assoc. reflexivity.
Qed.

(** Moves during a drag: only [end_point] follows the pointer. *)
Lemma deliver_moves_run (pts : list Point) (param : params) (g : globals) :
  drawing g = true ->
  deliver (moves pts) param g =
    (Ret tt, set_end_point (List.last (List.map Some pts) (end_point g)) g, []).
Proof.
  revert g. induction pts as [ | [px py] rest IH]; intros g Hd.
  - cbn. destruct g; reflexivity.
  - cbn [moves List.map deliver fst snd]. fold (moves rest).
    assert (Hstep : guarded (select_roi_callback EVENT_MOUSEMOVE px py 0 param) g =
                    (Ret tt, set_end_point (Some (px, py)) g, [])).
    { unfold guarded, select_roi_callback, bind, gets, modify. cbn. rewrite Hd. reflexivity. }
    rewrite bind_run, Hstep. cbn [result_of state_of trace_of fst snd app].
    rewrite IH by exact Hd. rewrite last_cons. reflexivity.
Qed.

(** X2.  A whole drag, from any state: press at [p1], any number of moves,
    release at [p2].  The points passed through do not matter.  When the two
    end points are more than 10 pixels apart both ways the tracker's [init]
    is called once with their bounding box: if it returns, tracking is on;
    if it raises, the error is reported by [cv2.waitKey], the tracker is
    left without a box and the state is Idle.  Otherwise nothing is called
    and the state is Idle. *)
Theorem drag_selects_box (g : globals) (p1 p2 : Point) (pts : list Point) (f : Frame) :
  let bbox := (Z.min (fst p1) (fst p2), Z.min (snd p1) (snd p2),
               Z.abs (fst p2 - fst p1), Z.abs (snd p2 - snd p1)) in
  let out := deliver (press p1 :: moves pts ++ [release p2]) {| frame := Some f |} g in
  (10 < Z.abs (fst p2 - fst p1) -> 10 < Z.abs (snd p2 - snd p1) ->
   csrt_accepts f bbox = true ->
   out = (Ret tt,
          {| drawing := false; start_point := Some p1; end_point := Some p2;
             tracker := Some {| trk_init := Some (f, bbox) |};
             tracking_active := true; ser := ser g |},
          [TrackerCreate; TrackerInit f bbox; Console MsgTrackerInitialized;
           Console (MsgTrackingObjectAt bbox)])) /\
  (10 < Z.abs (fst p2 - fst p1) -> 10 < Z.abs (snd p2 - snd p1) ->
   csrt_accepts f bbox = false ->
   out = (Ret tt,
          {| drawing := false; start_point := Some p1; end_point := Some p2;
             tracker := Some {| trk_init := None |};
             tracking_active := false; ser := ser g |},
          [TrackerCreate; TrackerInit f bbox; CallbackError CvError]) /\
   selection_state (state_of out) = Idle) /\
  (Z.abs (fst p2 - fst p1) <= 10 \/ Z.abs (snd p2 - snd p1) <= 10 ->
   out = (Ret tt,
          {| drawing := false; start_point := Some p1; end_point := Some p2;
             tracker := tracker g; tracking_active := false; ser := ser g |},
          []) /\
   selection_state (state_of out) = Idle).
Proof.
  intros bbox out. destruct p1 as [x1 y1], p2 as [x2 y2]. cbn [fst snd] in *.
  set (g1 := {| drawing := true; start_point := Some (x1, y1); end_point := Some (x1, y1);
                tracker := tracker g; tracking_active := false; ser := ser g |}).
  set (g2 := set_end_point (List.last (List.map Some pts) (end_point g1)) g1).
  assert (Hout : out = (result_of (guarded (select_roi_callback EVENT_LBUTTONUP x2 y2 0
                                              {| frame := Some f |}) g2),
                        state_of (guarded (select_roi_callback EVENT_LBUTTONUP x2 y2 0
                                              {| frame := Some f |}) g2),
                        trace_of (guarded (select_roi_callback EVENT_LBUTTONUP x2 y2 0
                                              {| frame := Some f |}) g2))).
  { unfold out, press. cbn [deliver fst snd].
    rewrite bind_run.
    assert (Hp : guarded (select_roi_callback EVENT_LBUTTONDOWN x1 y1 0
                            {| frame := Some f |}) g = (Ret tt, g1, [])) by reflexivity.
    rewrite Hp. cbn [result_of state_of trace_of fst snd app].
    rewrite deliver_app, deliver_moves_run by reflexivity. fold g2.
    cbn [result_of state_of trace_of fst snd app].
    unfold release. cbn [deliver fst snd]. rewrite bind_run, guarded_result.
    cbn [ret result_of state_of trace_of fst snd]. rewrite app_nil_r. reflexivity. }
  assert (Hs : start_point g2 = Some (x1, y1)) by reflexivity.
  split; [ | split ].
  - intros Hw Hh Hacc.
    pose proof (accepted_release_run g2 x1 y1 x2 y2 0 f Hs Hw Hh) as Hc.
    cbv zeta in Hc. fold bbox in Hc. rewrite Hacc in Hc.
    rewrite Hout. unfold guarded. rewrite Hc. reflexivity.
  - intros Hw Hh Hacc.
    pose proof (accepted_release_run g2 x1 y1 x2 y2 0 f Hs Hw Hh) as Hc.
    cbv zeta in Hc. fold bbox in Hc. rewrite Hacc in Hc.
    rewrite Hout. unfold guarded. rewrite Hc. split; reflexivity.
  - intros Hsmall.
    pose proof (small_release_run g2 x1 y1 x2 y2 0 {| frame := Some f |} Hs Hsmall) as Hc.
    rewrite Hout. unfold guarded. rewrite Hc. split; reflexivity.
Qed.

Lemma drag_selects_box_witness :
  10 < Z.abs (fst (10, 10) - fst (50, 50)) /\ 10 < Z.abs (snd (10, 10) - snd (50, 50)) /\
  deliver (press (50, 50) :: moves [(40, 45); (200, 3); (12, 30)] ++ [release (10, 10)])
    {| frame := Some vga |} tracking0
  = (Ret tt, tracking0,
     [TrackerCreate; TrackerInit vga (10, 10, 40, 40); Console MsgTrackerInitialized;
      Console (MsgTrackingObjectAt (10, 10, 40, 40))]) /\
  selection_state
    (state_of (deliver (press (639, 479) :: moves [(650, 500)] ++ [release (700, 600)])
                 {| frame := Some vga |} tracking0)) = Idle.
Proof.
  split; [ reflexivity | ]. split; [ reflexivity | ].
  split.
  - exact (proj1 (drag_selects_box tracking0 (50, 50) (10, 10)
                    [(40, 45); (200, 3); (12, 30)] vga) eq_refl eq_refl eq_refl).
  - exact (proj2 (proj1 (proj2 (drag_selects_box tracking0 (639, 479) (700, 600)
                                  [(650, 500)] vga)) eq_refl eq_refl eq_refl)).
Defined.

(** X3.  A release that finds no start point, as after a reset in the middle
    of a drag, raises [TypeError] at the unpacking on line 34: [drawing] is
    cleared and [end_point] set, no tracker is created, and under
    [cv2.waitKey] the error is only reported, leaving the state Idle. *)
Theorem release_without_press_raises (g : globals) (x y flags : Z) (param : params) :
  start_point g = None ->
  select_roi_callback EVENT_LBUTTONUP x y flags param g =
    (Raise TypeError, set_end_point (Some (x, y)) (set_drawing false g), []) /\
  guarded (select_roi_callback EVENT_LBUTTONUP x y flags param) g =
    (Ret tt, set_end_point (Some (x, y)) (set_drawing false g), [CallbackError TypeError]) /\
  (tracking_active g = false ->
   selection_state (set_end_point (Some (x, y)) (set_drawing false g)) = Idle).
Proof.
  intros Hs.
  assert (H : select_roi_callback EVENT_LBUTTONUP x y flags param g =
              (Raise TypeError, set_end_point (Some (x, y)) (set_drawing false g), [])).
  { unfold select_roi_callback, bind, modify, gets, unpack, raise. cbn. rewrite Hs. reflexivity. }
  split; [ exact H | ]. split.
  - unfold guarded. rewrite H. reflexivity.
  - intros Ha. unfold selection_state. cbn. rewrite Ha. reflexivity.
Qed.

Lemma release_without_press_raises_witness :
  start_point (state_of (reset dragging0)) = None /\
  guarded (select_roi_callback EVENT_LBUTTONUP 10 10 0 {| frame := Some vga |})
    (state_of (reset dragging0)) =
    (Ret tt, set_end_point (Some (10, 10)) (set_drawing false (state_of (reset dragging0))),
     [CallbackError TypeError]).
Proof.
  split; [ reflexivity | ].
  exact (proj1 (proj2 (release_without_press_raises (state_of (reset dragging0)) 10 10 0
                         {| frame := Some vga |} eq_refl))).
Defined.

(* ================================================================== *)
(** ** Further properties of the tracking step                         *)
(* ================================================================== *)

Lemma trace_bind {A B} (m : M A) (k : A -> M B) (g : globals) :
  trace_of (bind m k g) =
    trace_of (m g) ++
    match result_of (m g) with
    | Ret a => trace_of (k a (state_of (m g)))
    | Raise _ => []
    end.
Proof.
  rewrite bind_run. destruct (result_of (m g)); cbn [trace_of snd];
    [ reflexivity | rewrite app_nil_r; reflexivity ].
Qed.

(** An exception in the conversions or in the arithmetic leaves the
    tracking step right after the tracker was asked. *)
Lemma track_raise (g : globals) (fr : Frame) (b0 b1 b2 b3 : pynum) (t : Tracker) (e : exn) :
  tracking_active g = true -> tracker g = Some t ->
  (py_int b0 = Raise e \/
   (exists x, py_int b0 = Ret x /\
      (py_int b1 = Raise e \/
       exists y, py_int b1 = Ret y /\
         (py_int b2 = Raise e \/
          exists w, py_int b2 = Ret w /\
            (py_int b3 = Raise e \/
             exists h, py_int b3 = Ret h /\
               fins (x + w / 2) (y + h / 2) (frame_w fr) (frame_h fr) = Raise e))))) ->
  track fr (true, (b0, b1, b2, b3)) g = (Raise e, g, [TrackerUpdate fr]).
Proof.
  intros Ha Ht H. unfold track, bind, gets, lift, emit. rewrite Ha, Ht. cbn [andb is_some].
  destruct H as [-> | (x & -> & [-> | (y & -> & [-> | (w & -> & [-> | (h & -> & ->)])])])];
    reflexivity.
Qed.

(** Every way the tracking step can go. *)
Lemma track_cases (g : globals) (fr : Frame) (upd : bool * raw_bbox) :
  track fr upd g = (Ret tt, g, []) \/
  track fr upd g =
    (Ret tt, set_tracking_active false g,
     [TrackerUpdate fr; PutText "TRACKING LOST - Draw new box" (10, 30) RED]) \/
  (exists e, track fr upd g = (Raise e, g, [TrackerUpdate fr])) \/
  (exists l r t b overlay,
     Forall is_drawing overlay /\
     track fr upd g =
       (Ret tt, g,
        TrackerUpdate fr :: Console (MsgFinAngles l r t b)
          :: (if is_some (ser g) then [SerialWrite (command l r t b)] else [])
          ++ overlay)).
Proof.
  destruct (tracking_active g) eqn:Ha; [ | left; apply track_inactive, Ha ].
  destruct (tracker g) as [t | ] eqn:Ht;
    [ | left; unfold track, bind, gets; cbn; rewrite Ha, Ht; reflexivity ].
  destruct upd as [[ | ] [[[b0 b1] b2] b3]];
    [ | right; left; apply (track_lost g fr _ t Ha Ht) ].
  right; right.
  pose proof (fun e => track_raise g fr b0 b1 b2 b3 t e Ha Ht) as Hraise.
  destruct (py_int b0) as [x | e] eqn:H0; [ | left; exists e; apply Hraise; auto ].
  destruct (py_int b1) as [y | e] eqn:H1;
    [ | left; exists e; apply Hraise; right; exists x; auto ].
  destruct (py_int b2) as [w | e] eqn:H2;
    [ | left; exists e; apply Hraise; right; exists x; split; [ reflexivity | ];
        right; exists y; auto ].
  destruct (py_int b3) as [h | e] eqn:H3;
    [ | left; exists e; apply Hraise; right; exists x; split; [ reflexivity | ];
        right; exists y; split; [ reflexivity | ]; right; exists w; auto ].
  destruct (fins (x + w / 2) (y + h / 2) (frame_w fr) (frame_h fr))
    as [[[[l r] tp] bt] | e] eqn:Hf.
  - right. exists l, r, tp, bt. eexists. split;
      [ | exact (track_success g fr b0 b1 b2 b3 t x y w h l r tp bt Ha Ht H0 H1 H2 H3 Hf) ].
    repeat constructor.
  - left. exists e. apply Hraise. right; exists x; split; [ reflexivity | ].
    right; exists y; split; [ reflexivity | ]. right; exists w; split; [ reflexivity | ].
    right; exists h; split; [ reflexivity | exact Hf ].
Qed.

Lemma track_state_cases (g : globals) (fr : Frame) (upd : bool * raw_bbox) :
  state_of (track fr upd g) = g \/
  state_of (track fr upd g) = set_tracking_active false g.
Proof.
  destruct (track_cases g fr upd)
    as [H | [H | [(e & H) | (l & r & t & b & o & _ & H)]]]; rewrite H; auto.
Qed.

Lemma drawing_is_quiet (o : list effect) : Forall is_drawing o -> Forall quiet o.
Proof.
  intros H. eapply Forall_impl; [ | exact H ].
  intros e He. destruct e; try contradiction; split; reflexivity.
Qed.

(** X4.  The tracking step never touches the tracker, the selection points,
    [drawing] or [ser]: whatever the tracker answers, and also when the step
    raises, the globals are unchanged or differ only by [tracking_active]
    having become false. *)
Theorem track_only_clears_tracking (g : globals) (fr : Frame) (upd : bool * raw_bbox) :
  state_of (track fr upd g) = g \/
  state_of (track fr upd g) = set_tracking_active false g.
Proof.
  destruct (track_cases g fr upd)
    as [H | [H | [(e & H) | (l & r & t & b & o & _ & H)]]]; rewrite H; auto.
Qed.

(** X5.  One pass asks the tracker at most once and writes at most one
    line, and it never writes a line without having asked the tracker: over
    any run of the loop the serial lines are at most as many as the tracker
    updates, which are at most as many as the passes. *)
Theorem writes_follow_updates (its : list iter_input) (g : globals) :
  (forall i g', (count is_update (trace_of (iteration i g')) <= 1)%nat /\
                (count is_write (trace_of (iteration i g'))
                 <= count is_update (trace_of (iteration i g')))%nat) /\
  (count is_write (trace_of (loop its g)) <= count is_update (trace_of (loop its g)))%nat /\
  (count is_update (trace_of (loop its g)) <= List.length its)%nat.
Proof.
  assert (Hq : forall p o, (p = is_update \/ p = is_write) -> Forall quiet o -> count p o = 0%nat).
  { intros p o Hp Hq. apply count_none. eapply Forall_impl; [ | exact Hq ].
    intros e [H1 H2]. destruct Hp; subst; assumption. }
  assert (Htrack : forall fr upd g',
            (count is_update (trace_of (track fr upd g')) <= 1)%nat /\
            (count is_write (trace_of (track fr upd g'))
             <= count is_update (trace_of (track fr upd g')))%nat).
  { intros fr upd g'.
    destruct (track_cases g' fr upd)
      as [H | [H | [(e & H) | (l & r & t & b & o & Ho & H)]]]; rewrite H;
      unfold trace_of; cbn [snd]; try (cbn; lia).
    change (?a :: ?b :: ?c ++ ?d) with ([a; b] ++ c ++ d).
    apply drawing_is_quiet in Ho.
    rewrite !count_app, (Hq is_update o), (Hq is_write o) by auto.
    destruct (is_some (ser g')); cbn; lia. }
  assert (Hiter : forall i g',
            (count is_update (trace_of (iteration i g')) <= 1)%nat /\
            (count is_write (trace_of (iteration i g'))
             <= count is_update (trace_of (iteration i g')))%nat).
  { intros i g'. unfold iteration. destruct (grabbed i) as [fr | ]; [ | cbn; lia ].
    rewrite trace_bind. destruct (Htrack fr (update i) g') as [H1 H2].
    destruct (result_of (track fr (update i) g')) as [[] | e];
      [ | rewrite app_nil_r; split; assumption ].
    cbv zeta.
    match goal with
    | |- context [_ ++ trace_of (?K ?s)] =>
        assert (Hrest : Forall quiet (trace_of (K s)))
    end.
    { match goal with
      | |- Forall quiet (trace_of (?m ?s)) =>
          assert (Hob : obeys (fun _ => True) quiet m)
      end.
      { unfold waitKey, reset, quiet.
        repeat obeys_step; auto using overlays_quiet, deliver_quiet; split; reflexivity. }
      exact (proj2 (Hob _ I)). }
    rewrite !count_app, (Hq is_update _ (or_introl eq_refl) Hrest),
      (Hq is_write _ (or_intror eq_refl) Hrest). lia. }
  split; [ exact Hiter | ].
  revert g. induction its as [ | i rest IH]; intros g; [ cbn; lia | ].
  cbn [loop List.length]. rewrite trace_bind.
  destruct (Hiter i g) as [H1 H2].
  destruct (result_of (iteration i g)) as [[ | ] | e]; rewrite ?count_app.
  - cbn. lia.
  - destruct (IH (state_of (iteration i g))). lia.
  - cbn. lia.
Qed.

(* ================================================================== *)
(** ** Invariants of a run                                             *)
(* ================================================================== *)

Lemma callback_outcomes (event x y flags : Z) (param : params) (g : globals) :
  let out := select_roi_callback event x y flags param g in
  (* nothing happened, or a move *)
  (trace_of out = [] /\ tracker (state_of out) = tracker g /\
   tracking_active (state_of out) = tracking_active g /\
   drawing (state_of out) = drawing g /\ start_point (state_of out) = start_point g /\
   (drawing g = true -> is_some (end_point (state_of out)) = is_some (end_point g)
                        \/ is_some (end_point (state_of out)) = true)) \/
  (* a press *)
  (trace_of out = [] /\ tracker (state_of out) = tracker g /\
   tracking_active (state_of out) = false /\ drawing (state_of out) = true /\
   is_some (start_point (state_of out)) = true /\ is_some (end_point (state_of out)) = true) \/
  (* a release that starts nothing *)
  (Forall big_box (trace_of out) /\
   (tracker (state_of out) = tracker g \/ is_some (tracker (state_of out)) = true) /\
   tracking_active (state_of out) = tracking_active g /\ drawing (state_of out) = false) \/
  (* a release that starts tracking *)
  (Forall big_box (trace_of out) /\ is_some (tracker (state_of out)) = true /\
   tracking_active (state_of out) = true /\ drawing (state_of out) = false).
Proof.
  intros out. subst out. unfold select_roi_callback.
  destruct (event =? EVENT_LBUTTONDOWN).
  { right; left. repeat split. }
  destruct (event =? EVENT_MOUSEMOVE).
  { left. unfold bind, gets, modify, ret. cbn.
    destruct (drawing g) eqn:Hd; cbn; rewrite ?Hd; repeat split; auto. }
  destruct (event =? EVENT_LBUTTONUP); [ | left; repeat split; auto ].
  unfold bind, gets, modify, unpack, raise, ret. cbn.
  destruct (start_point g) as [[x1 y1] | ] eqn:Hs; cbn;
    [ | right; right; left; repeat split; auto ].
  destruct ((10 <? Z.abs (x - x1)) && (10 <? Z.abs (y - y1))) eqn:Hc; cbn;
    [ | right; right; left; repeat split; auto ].
  apply andb_true_iff in Hc. destruct Hc as [Hw Hh]. apply Z.ltb_lt in Hw, Hh.
  unfold init_tracker, bind, emit, modify, raise. cbn.
  destruct (frame param) as [f | ]; cbn.
  - destruct (csrt_accepts f _); cbn.
    + right; right; right. repeat split; auto. repeat constructor; cbn; auto.
    + right; right; left. repeat split; auto. repeat constructor; cbn; auto.
  - right; right; left. repeat split; auto. repeat constructor.
Qed.

Lemma callback_well_formed (event x y flags : Z) (param : params) :
  obeys well_formed (fun _ => True) (select_roi_callback event x y flags param).
Proof.
  intros g [Ht Hd]. split; [ | apply Forall_forall; auto ].
  pose proof (callback_outcomes event x y flags param g) as H. cbv zeta in H.
  set (g' := state_of (select_roi_callback event x y flags param g)) in *.
  unfold well_formed.
  destruct H as [(_ & H1 & H2 & H3 & H4 & H5)
               | [(_ & H1 & H2 & H3 & H4 & H5)
               | [(_ & H1 & H2 & H3) | (_ & H1 & H2 & H3)]]].
  - rewrite H1, H2, H3, H4. split; [ exact Ht | ].
    intros D. destruct (Hd D) as [Hsp Hep]. split; [ exact Hsp | ].
    destruct (H5 D) as [E | E]; rewrite E; auto.
  - rewrite H2, H3. split; [ discriminate | auto ].
  - rewrite H2, H3. split; [ | discriminate ].
    intros A. destruct (Ht A) as [T _]. split; [ | reflexivity ].
    destruct H1 as [E | E]; rewrite E; auto.
  - rewrite H3. split; [ auto | discriminate ].
Qed.

Lemma callback_big_box (event x y flags : Z) (param : params) :
  obeys (fun _ => True) big_box (select_roi_callback event x y flags param).
Proof.
  intros g _. split; [ exact I | ].
  pose proof (callback_outcomes event x y flags param g) as H. cbv zeta in H.
  destruct H as [(E & _) | [(E & _) | [(E & _) | (E & _)]]];
    try rewrite E; try constructor; exact E.
Qed.

Lemma reset_well_formed : obeys well_formed (fun _ => True) reset.
Proof.
  intros g _. rewrite reset_run. split; [ | constructor ].
  split; cbn; discriminate.
Qed.

Lemma set_tracking_false_well_formed (g : globals) :
  well_formed g -> well_formed (set_tracking_active false g).
Proof. intros [Ht Hd]. split; cbn; [ discriminate | exact Hd ]. Qed.

Lemma track_well_formed (fr : Frame) (upd : bool * raw_bbox) :
  obeys well_formed (fun _ => True) (track fr upd).
Proof.
  intros g H. split; [ | apply Forall_forall; auto ].
  destruct (track_state_cases g fr upd) as [E | E]; rewrite E;
    [ exact H | apply set_tracking_false_well_formed, H ].
Qed.

Lemma deliver_obeys (I : globals -> Prop) (P : effect -> Prop)
    (evs : list pointer_event) (param : params) :
  (forall e, P (CallbackError e)) ->
  (forall event x y flags, obeys I P (select_roi_callback event x y flags param)) ->
  obeys I P (deliver evs param).
Proof.
  intros He Hc. induction evs as [ | [[[event x] y] flags] rest IH]; cbn.
  - apply obeys_ret.
  - apply obeys_bind; [ | intros _; exact IH ].
    apply obeys_guarded; [ exact He | apply Hc ].
Qed.

Lemma iteration_obeys_gen (I : globals -> Prop) (P : effect -> Prop) (i : iter_input) :
  (forall e, of_pass e -> P e) ->
  (forall fr upd, obeys I P (track fr upd)) ->
  (forall fr evs, obeys I P (deliver evs {| frame := Some fr |})) ->
  obeys I P reset ->
  obeys I P (iteration i).
Proof.
  intros HP Ht Hd Hr.
  unfold iteration, waitKey, overlays.
  destruct (grabbed i) as [fr | ].
  - apply obeys_bind; [ apply Ht | intros _ ].
    repeat (first
      [ exact Hr
      | apply Hd
      | apply obeys_bind; [ | intros ? ]
      | apply obeys_ret
      | apply obeys_gets
      | apply obeys_emit; apply HP; exact Logic.I
      | match goal with |- obeys _ _ (match ?x with _ => _ end) => destruct x end ]).
  - apply obeys_bind; [ apply obeys_emit; apply HP; exact Logic.I | intros _; apply obeys_ret ].
Qed.

Lemma iteration_obeys (I : globals -> Prop) (P : effect -> Prop) (i : iter_input) :
  (forall e, of_pass e -> P e) ->
  (forall e, P (CallbackError e)) ->
  (forall fr upd, obeys I P (track fr upd)) ->
  (forall event x y flags param, obeys I P (select_roi_callback event x y flags param)) ->
  obeys I P reset ->
  obeys I P (iteration i).
Proof.
  intros HP He Ht Hc Hr.
  apply iteration_obeys_gen; try assumption.
  intros fr evs. apply deliver_obeys; [ exact He | intros; apply Hc ].
Qed.

Lemma loop_obeys (I : globals -> Prop) (P : effect -> Prop) (its : list iter_input) :
  (forall i, obeys I P (iteration i)) -> obeys I P (loop its).
Proof.
  intros Hi. induction its as [ | i rest IH]; cbn.
  - apply obeys_ret.
  - apply obeys_bind; [ apply Hi | intros [ | ]; [ apply obeys_ret | exact IH ] ].
Qed.

Lemma camera_loop_obeys (I : globals -> Prop) (P : effect -> Prop) (w : world) :
  (forall e, of_frame e -> P e) ->
  obeys I P (loop (passes w)) ->
  obeys I P (camera_loop w).
Proof.
  intros HP Hl.
  unfold camera_loop.
  repeat (first
    [ exact Hl
    | apply obeys_bind; [ | intros ? ]
    | apply obeys_ret
    | apply obeys_gets
    | apply obeys_emit; apply HP; exact Logic.I
    | match goal with |- obeys _ _ (match ?x with _ => _ end) => destruct x end ]).
Qed.

Lemma main_obeys (I : globals -> Prop) (P : effect -> Prop) (w : world) (g : globals) :
  (forall e, of_frame e -> P e) ->
  (forall i, obeys I P (iteration i)) ->
  I (state_of (serial_init w g)) ->
  I (state_of (main w g)) /\ Forall P (trace_of (main w g)).
Proof.
  intros HP Hi Hg.
  destruct (camera_loop_obeys I P w HP (loop_obeys I P _ Hi) _ Hg) as [H1 H2].
  unfold main. rewrite bind_run.
  assert (Hr : result_of (serial_init w g) = Ret tt) by (rewrite serial_init_run; reflexivity).
  rewrite Hr. unfold state_of at 1, trace_of at 1. cbn [fst snd].
  split; [ exact H1 | ]. apply Forall_app. split; [ | exact H2 ].
  rewrite serial_init_run. unfold trace_of. cbn [snd].
  destruct (serial_opens w); repeat constructor; apply HP; exact Logic.I.
Qed.

(** X6.  The globals always describe exactly one selection state.  From a
    well-formed state (the initial one is) every run keeps: tracking implies
    a tracker is present and no drag is going on, and dragging implies both
    points are set.  So the test [tracker is not None] on line 109 and the
    tests of the two points on line 147 never decide anything. *)
Theorem run_keeps_well_formed (w : world) (its : list iter_input) (g : globals) :
  well_formed g ->
  well_formed (state_of (loop its g)) /\
  well_formed (state_of (main w g)).
Proof.
  intros Hg.
  assert (Hi : forall i, obeys well_formed (fun _ => True) (iteration i)).
  { intros i. apply iteration_obeys.
    - intros e _. exact I.
    - intros e. exact I.
    - apply track_well_formed.
    - intros. apply callback_well_formed.
    - apply reset_well_formed. }
  split.
  - exact (proj1 (loop_obeys _ _ its Hi g Hg)).
  - apply (main_obeys well_formed (fun _ => True) w g); auto.
    rewrite serial_init_run. unfold state_of. cbn [fst snd].
    destruct Hg as [Ht Hd]. split; cbn; assumption.
Qed.

Lemma run_keeps_well_formed_witness :
  well_formed initial_globals /\
  well_formed (state_of (main {| serial_opens := true; camera_opens := true;
                                 passes := [ {| grabbed := Some vga;
                                                update := (true, box 10 10 40 40);
                                                events := [press (50, 50); release (10, 10)];
                                                key_code := 113 |} ] |}
                           initial_globals)).
Proof.
  assert (H : well_formed initial_globals) by (split; cbn; discriminate).
  split; [ exact H | ].
  exact (proj2 (run_keeps_well_formed
                  {| serial_opens := true; camera_opens := true;
                     passes := [ {| grabbed := Some vga;
                                    update := (true, box 10 10 40 40);
                                    events := [press (50, 50); release (10, 10)];
                                    key_code := 113 |} ] |}
                  [] initial_globals H)).
Defined.

(** X7.  Every box ever handed to the tracker's [init], in any run, is more
    than 10 pixels wide and more than 10 pixels high. *)
Theorem tracker_boxes_are_big (w : world) (g : globals) :
  Forall big_box (trace_of (main w g)).
Proof.
  apply (main_obeys (fun _ => True) big_box w g); auto.
  - intros e He. destruct e; try exact I; contradiction.
  - intros i. apply iteration_obeys; auto.
    + intros e He. destruct e; try exact I; contradiction.
    + intros e. exact I.
    + intros fr upd g' _. split; [ exact I | ].
      destruct (track_cases g' fr upd)
        as [H | [H | [(e & H) | (l & r & t & b & o & Ho & H)]]]; rewrite H;
        unfold trace_of; cbn [snd]; repeat constructor.
      apply Forall_app. split.
      * destruct (is_some (ser g')); repeat constructor.
      * eapply Forall_impl; [ | exact Ho ]. intros e He. destruct e; try exact I.
        contradiction.
    + intros. apply callback_big_box.
    + intros g' _. rewrite reset_run. split; [ exact I | constructor ].
Qed.

(** X8.  Once [serial_init] is over nothing replaces the serial handle,
    neither a reset nor a lost track: at the end of any run [ser] is the
    port when it opened and [None] when it did not. *)
Theorem serial_handle_is_kept (w : world) (g : globals) :
  ser (state_of (main w g)) =
    if serial_opens w then Some {| port := SERIAL_PORT; baudrate := BAUD_RATE |} else None.
Proof.
  set (s := if serial_opens w
            then Some {| port := SERIAL_PORT; baudrate := BAUD_RATE |} else None).
  apply (main_obeys (fun g' => ser g' = s) (fun _ => True) w g).
  - intros e _. exact I.
  - intros i. apply iteration_obeys.
    + intros e _. exact I.
    + intros e. exact I.
    + intros fr upd g' Hs. split; [ | apply Forall_forall; auto ].
      destruct (track_state_cases g' fr upd) as [E | E]; rewrite E; exact Hs.
    + intros. unfold select_roi_callback, init_tracker, unpack. repeat obeys_step.
    + unfold reset. repeat obeys_step.
  - rewrite serial_init_run. unfold s. destruct (serial_opens w); reflexivity.
Qed.

(* ================================================================== *)
(** ** Keys and the shutdown                                           *)
(* ================================================================== *)

Lemma bind_ext {A B} (m : M A) (k k' : A -> M B) (g : globals) :
  (forall a g', k a g' = k' a g') -> bind m k g = bind m k' g.
Proof.
  intros H. rewrite !bind_run. destruct (result_of (m g)); [ rewrite H | ]; reflexivity.
Qed.

(** A pass looks at the key only through the two tests of lines 159 and 161. *)
Lemma iteration_key (i : iter_input) (k k' : Z) (g : globals) :
  (Z.land k 255 =? ord_q) = (Z.land k' 255 =? ord_q) ->
  (Z.land k 255 =? ord_r) = (Z.land k' 255 =? ord_r) ->
  iteration (with_key i k) g = iteration (with_key i k') g.
Proof.
  intros Hq Hr. unfold iteration, with_key. cbn [grabbed update events key_code].
  destruct (grabbed i) as [fr | ]; [ | reflexivity ].
  apply bind_ext; intros _ g1. apply bind_ext; intros _ g2. apply bind_ext; intros _ g3.
  unfold waitKey. rewrite !bind_assoc. apply bind_ext; intros _ g4.
  unfold bind at 1 3, ret at 1 3. cbv zeta. rewrite Hq, Hr. reflexivity.
Qed.

Lemma land_255_period (k n : Z) : Z.land (k + 256 * n) 255 = Z.land k 255.
Proof.
  change 255 with (Z.ones 8). rewrite !Z.land_ones by lia.
  change (2 ^ 8) with 256. rewrite Z.mul_comm. apply Z_mod_plus_full.
Qed.

(** X9.  Only the low byte of the key code counts: two codes that differ by a
    multiple of 256 give the same pass. *)
Theorem key_code_low_byte (i : iter_input) (k n : Z) (g : globals) :
  iteration (with_key i (k + 256 * n)) g = iteration (with_key i k) g.
Proof. apply iteration_key; rewrite land_255_period; reflexivity. Qed.

(** X10.  A key other than [q] and [r] does what no key does: the pass is the
    one [cv2.waitKey] answering -1 gives. *)
Theorem other_keys_are_no_key (i : iter_input) (k : Z) (g : globals) :
  (Z.land k 255 =? ord_q) = false -> (Z.land k 255 =? ord_r) = false ->
  iteration (with_key i k) g = iteration (with_key i (-1)) g.
Proof. intros Hq Hr. apply iteration_key; rewrite ?Hq, ?Hr; reflexivity. Qed.

Lemma other_keys_are_no_key_witness :
  iteration (with_key {| grabbed := Some vga; update := (true, box 10 10 40 40);
                         events := []; key_code := 0 |} 97) tracking0 =
  iteration (with_key {| grabbed := Some vga; update := (true, box 10 10 40 40);
                         events := []; key_code := 0 |} (-1)) tracking0.
Proof.
  exact (other_keys_are_no_key
           {| grabbed := Some vga; update := (true, box 10 10 40 40);
              events := []; key_code := 0 |} 97 tracking0 eq_refl eq_refl).
Defined.

Lemma track_keeps_open (s : option Serial) (fr : Frame) (upd : bool * raw_bbox) :
  obeys (fun g => ser g = s) keeps_open (track fr upd).
Proof.
  intros g Hs.
  destruct (track_cases g fr upd)
    as [H | [H | [(e & H) | (l & r & t & b & o & Ho & H)]]]; rewrite H;
    unfold state_of, trace_of; cbn [fst snd]; (split; [ exact Hs | ]);
    repeat (constructor; [ split; reflexivity | ]); try constructor.
  apply Forall_app. split.
  - destruct (is_some (ser g)); repeat constructor.
  - eapply Forall_impl; [ | exact Ho ]. intros e He. destruct e; try contradiction;
      split; reflexivity.
Qed.

Lemma loop_keeps_open (s : option Serial) (its : list iter_input) :
  obeys (fun g => ser g = s) keeps_open (loop its).
Proof.
  apply loop_obeys. intros i. apply iteration_obeys.
  - intros e He. destruct e; try contradiction; try (split; reflexivity).
  - intros e. split; reflexivity.
  - apply track_keeps_open.
  - intros. unfold select_roi_callback, init_tracker, unpack, keeps_open.
    repeat obeys_step; split; reflexivity.
  - unfold reset. repeat obeys_step.
Qed.

(** [camera_loop] spelled out. *)
Lemma camera_loop_trace (w : world) (g : globals) :
  trace_of (camera_loop w g) =
    if camera_opens w then
      Console MsgInstructions :: trace_of (loop (passes w) g) ++
      (if left_by_break (result_of (loop (passes w) g)) then
         CapRelease :: DestroyAllWindows ::
         (if is_some (ser (state_of (loop (passes w) g))) then [SerialClose] else []) ++
         [Console MsgDone]
       else [])
    else [Console MsgCannotOpenCamera].
Proof.
  unfold camera_loop. destruct (camera_opens w); [ | reflexivity ]. cbn [negb].
  rewrite trace_bind. cbn [emit result_of state_of trace_of fst snd app]. f_equal.
  rewrite trace_bind. f_equal.
  destruct (result_of (loop (passes w) g)) as [[ | ] | e]; cbn [left_by_break]; try reflexivity.
  unfold bind, emit, gets, ret. cbn.
  destruct (ser (state_of (loop (passes w) g))); reflexivity.
Qed.

(** X12.  The camera is released and the port closed only when the loop was
    left by [break], and then exactly once; the port only if it had opened.
    A camera that does not open, an exception in the loop, or an observation
    that ends with the loop still running leave both untouched. *)
Theorem shutdown_only_after_break (w : world) (g : globals) :
  let left := camera_opens w &&
              left_by_break (result_of (loop (passes w) (state_of (serial_init w g)))) in
  count is_cap_release (trace_of (main w g)) = (if left then 1 else 0)%nat /\
  count is_close (trace_of (main w g)) = (if left && serial_opens w then 1 else 0)%nat.
Proof.
  cbv zeta. set (g0 := state_of (serial_init w g)).
  set (s := if serial_opens w
            then Some {| port := SERIAL_PORT; baudrate := BAUD_RATE |} else None).
  assert (Hs : ser g0 = s).
  { unfold g0. rewrite serial_init_run. unfold s. destruct (serial_opens w); reflexivity. }
  destruct (loop_keeps_open s (passes w) g0 Hs) as [Hs' Hk].
  assert (Hc : count is_cap_release (trace_of (loop (passes w) g0)) = 0%nat).
  { apply count_none. eapply Forall_impl; [ | exact Hk ]. intros e [H _]. exact H. }
  assert (Hd : count is_close (trace_of (loop (passes w) g0)) = 0%nat).
  { apply count_none. eapply Forall_impl; [ | exact Hk ]. intros e [_ H]. exact H. }
  assert (Hm : trace_of (main w g) = trace_of (serial_init w g) ++ trace_of (camera_loop w g0)).
  { unfold main. rewrite trace_bind. rewrite serial_init_run at 2. reflexivity. }
  rewrite Hm, camera_loop_trace, Hs', !count_app.
  assert (Hi1 : count is_cap_release (trace_of (serial_init w g)) = 0%nat)
    by (rewrite serial_init_run; destruct (serial_opens w); reflexivity).
  assert (Hi2 : count is_close (trace_of (serial_init w g)) = 0%nat)
    by (rewrite serial_init_run; destruct (serial_opens w); reflexivity).
  rewrite Hi1, Hi2.
  destruct (camera_opens w); cbn [andb]; [ | split; reflexivity ].
  change (Console MsgInstructions :: ?l) with ([Console MsgInstructions] ++ l).
  rewrite !count_app, Hc, Hd.
  destruct (left_by_break (result_of (loop (passes w) g0))); [ | split; reflexivity ].
  unfold s. destruct (serial_opens w); split; reflexivity.
Qed.

(* ================================================================== *)
(** ** Exceptions of the tracking step                                 *)
(* ================================================================== *)

Lemma error_of_zero (center : Z) :
  Z.abs center < 2 ^ 53 -> error_of center 0 = Raise ZeroDivisionError.
Proof.
  intros Hc. destruct (float_of_int_exact center Hc) as (c & Hfc & _).
  unfold error_of, PyFloat.int_sub_float.
  change (PyFloat.int_truediv 0 2) with (@Ret PyFloat.float (S754_zero false)).
  cbn [res_bind]. rewrite Hfc. reflexivity.
Qed.

(** X13.  A frame without columns, or with columns and no rows, makes the
    tracking step divide by zero: the exception leaves the loop right after
    the tracker was asked, nothing is printed, sent or drawn, and the
    shutdown code is not reached. *)
Theorem empty_frame_raises (g : globals) (i : iter_input) (rest : list iter_input)
    (fr : Frame) (t : Tracker) (b0 b1 b2 b3 : pynum) (x y w h : Z) :
  tracking_active g = true -> tracker g = Some t ->
  grabbed i = Some fr -> update i = (true, (b0, b1, b2, b3)) ->
  py_int b0 = Ret x -> py_int b1 = Ret y -> py_int b2 = Ret w -> py_int b3 = Ret h ->
  Z.abs (x + w / 2) < 2 ^ 32 -> Z.abs (y + h / 2) < 2 ^ 32 ->
  frame_w fr = 0 \/ (0 < frame_w fr < 2 ^ 31 /\ frame_h fr = 0) ->
  track fr (update i) g = (Raise ZeroDivisionError, g, [TrackerUpdate fr]) /\
  loop (i :: rest) g = (Raise ZeroDivisionError, g, [TrackerUpdate fr]).
Proof.
  intros Ha Ht Hg Hu H0 H1 H2 H3 Hx Hy Hfr.
  assert (H32 : 2 ^ 32 < 2 ^ 53) by reflexivity.
  assert (Hf : fins (x + w / 2) (y + h / 2) (frame_w fr) (frame_h fr) = Raise ZeroDivisionError).
  { unfold fins. destruct Hfr as [Hw | [Hw Hh]].
    - rewrite Hw, error_of_zero by lia. reflexivity.
    - destruct (error_of_finite (x + w / 2) (frame_w fr) Hw Hx) as (ex & -> & _).
      rewrite Hh, error_of_zero by lia. reflexivity. }
  assert (Htr : track fr (update i) g = (Raise ZeroDivisionError, g, [TrackerUpdate fr])).
  { rewrite Hu. apply (track_raise g fr b0 b1 b2 b3 t); try assumption.
    right. exists x. split; [ exact H0 | ]. right. exists y. split; [ exact H1 | ].
    right. exists w. split; [ exact H2 | ]. right. exists h. split; [ exact H3 | exact Hf ]. }
  split; [ exact Htr | ].
  cbn [loop]. rewrite bind_run. unfold iteration. rewrite Hg, bind_run, Htr. reflexivity.
Qed.

Lemma empty_frame_raises_witness :
  loop [ {| grabbed := Some {| frame_h := 0; frame_w := 640; pixels := 0; csrt_accepts := fun _ => false |};
            update := (true, box 10 10 40 40); events := []; key_code := -1 |} ] tracking0 =
    (Raise ZeroDivisionError, tracking0,
     [TrackerUpdate {| frame_h := 0; frame_w := 640; pixels := 0; csrt_accepts := fun _ => false |}]).
Proof.
  refine (proj2 (empty_frame_raises tracking0
                   {| grabbed := Some {| frame_h := 0; frame_w := 640; pixels := 0; csrt_accepts := fun _ => false |};
                      update := (true, box 10 10 40 40); events := []; key_code := -1 |}
                   [] {| frame_h := 0; frame_w := 640; pixels := 0; csrt_accepts := fun _ => false |}
                   {| trk_init := Some (vga, (10, 10, 40, 40)) |}
                   (PyInt 10) (PyInt 10) (PyInt 40) (PyInt 40) 10 10 40 40
                   eq_refl eq_refl eq_refl eq_refl eq_refl eq_refl eq_refl eq_refl _ _ _)).
  - reflexivity.
  - reflexivity.
  - right. split; [ split; reflexivity | reflexivity ].
Defined.

Lemma py_int_cases (b : pynum) :
  (pynum_finite b = true /\ exists z, py_int b = Ret z) \/
  (pynum_finite b = false /\
   exists e, (e = ValueError \/ e = OverflowError) /\ py_int b = Raise e).
Proof.
  destruct b as [z | [s | s | | s m e]]; cbn; eauto 6.
Qed.

(** X14.  A box with a component that is not a finite number (NaN or an
    infinity) cannot be converted by [int]: the tracking step raises
    [ValueError] or [OverflowError] right after the tracker was asked, and
    nothing is sent. *)
Theorem non_finite_box_raises (g : globals) (fr : Frame) (t : Tracker) (b0 b1 b2 b3 : pynum) :
  tracking_active g = true -> tracker g = Some t ->
  pynum_finite b0 && pynum_finite b1 && pynum_finite b2 && pynum_finite b3 = false ->
  exists e, (e = ValueError \/ e = OverflowError) /\
    track fr (true, (b0, b1, b2, b3)) g = (Raise e, g, [TrackerUpdate fr]).
Proof.
  intros Ha Ht Hb.
  destruct (py_int_cases b0) as [[F0 (x & H0)] | [_ (e & He & H0)]];
    [ | exists e; split; [ exact He | apply (track_raise g fr b0 b1 b2 b3 t); auto ] ].
  destruct (py_int_cases b1) as [[F1 (y & H1)] | [_ (e & He & H1)]];
    [ | exists e; split; [ exact He | apply (track_raise g fr b0 b1 b2 b3 t); eauto 6 ] ].
  destruct (py_int_cases b2) as [[F2 (w & H2)] | [_ (e & He & H2)]];
    [ | exists e; split; [ exact He | apply (track_raise g fr b0 b1 b2 b3 t); eauto 9 ] ].
  destruct (py_int_cases b3) as [[F3 (h & H3)] | [_ (e & He & H3)]];
    [ | exists e; split; [ exact He | apply (track_raise g fr b0 b1 b2 b3 t); eauto 12 ] ].
  rewrite F0, F1, F2, F3 in Hb. discriminate.
Qed.

Lemma non_finite_box_raises_witness :
  exists e, (e = ValueError \/ e = OverflowError) /\
    track vga (true, (PyInt 10, PyFloat S754_nan, PyInt 40, PyInt 40)) tracking0 =
      (Raise e, tracking0, [TrackerUpdate vga]).
Proof.
  exact (non_finite_box_raises tracking0 vga _ (PyInt 10) (PyFloat S754_nan) (PyInt 40) (PyInt 40)
           eq_refl eq_refl eq_refl).
Defined.

(* ================================================================== *)
(** ** The fin angles: sign and growth                                 *)
(* ================================================================== *)

Lemma round_sign (s : bool) (mx ex : Z) (lx : location) :
  match binary_round_aux PyFloat.prec PyFloat.emax s mx ex lx with
  | S754_finite s' _ _ => s' = s
  | _ => True
  end.
Proof.
  unfold binary_round_aux.
  destruct (shr_fexp PyFloat.prec PyFloat.emax mx ex lx) as [mrs' e'].
  destruct (shr_fexp PyFloat.prec PyFloat.emax
              (round_nearest_even (shr_m mrs') (loc_of_shr_record mrs')) e' loc_Exact)
    as [mrs'' e''].
  destruct (shr_m mrs''); try exact I.
  destruct (e'' <=? PyFloat.emax - PyFloat.prec); [ reflexivity | exact I ].
Qed.

Lemma div_sign (x : spec_float) (my : positive) (ey : Z) :
  (not_negative x -> not_negative (SFdiv PyFloat.prec PyFloat.emax x (S754_finite false my ey))) /\
  (not_positive x -> not_positive (SFdiv PyFloat.prec PyFloat.emax x (S754_finite false my ey))).
Proof.
  destruct x as [sx | sx | | sx mx ex]; cbn [SFdiv]; try (split; intros _; exact I).
  destruct (SFdiv_core_binary PyFloat.prec PyFloat.emax (Z.pos mx) ex (Z.pos my) ey)
    as [[mz ez] lz].
  pose proof (round_sign (xorb sx false) mz ez lz) as H.
  destruct (binary_round_aux PyFloat.prec PyFloat.emax (xorb sx false) mz ez lz)
    as [s | s | | s m e]; try (split; intros _; exact I).
  subst s. destruct sx; cbn; split; intros Hx; try exact I; exact Hx.
Qed.

Lemma mul30_sign (x : spec_float) :
  (not_negative x -> not_negative (PyFloat.mul x f30)) /\
  (not_positive x -> not_positive (PyFloat.mul x f30)).
Proof.
  unfold PyFloat.mul, f30.
  destruct x as [sx | sx | | sx mx ex]; cbn [SFmul]; try (split; intros _; exact I).
  match goal with
  | |- context [binary_round_aux _ _ ?s ?m ?e ?l] =>
      pose proof (round_sign s m e l) as H;
      destruct (binary_round_aux PyFloat.prec PyFloat.emax s m e l) as [s' | s' | | s' m' e']
  end; try (split; intros _; exact I).
  subst s'. destruct sx; cbn; split; intros Hx; try exact I; exact Hx.
Qed.

Lemma trunc_sign (f : spec_float) :
  (not_negative f -> 0 <= trunc f) /\ (not_positive f -> trunc f <= 0).
Proof.
  unfold trunc.
  destruct f as [s | s | | s m e]; cbn [float_num float_den not_negative not_positive];
    try (split; intros _; discriminate).
  assert (Hn : 0 < 2 ^ Z.max e 0) by (apply pow2_pos; lia).
  assert (Hd : 0 < 2 ^ Z.max (- e) 0) by (apply pow2_pos; lia).
  destruct s; cbn [cond_Zopp]; split; intros H; try contradiction.
  - rewrite Z.mul_opp_l, Z.quot_opp_l by lia.
    assert (0 <= Z.pos m * 2 ^ Z.max e 0 ÷ 2 ^ Z.max (- e) 0) by (apply Z.quot_pos; lia).
    lia.
  - apply Z.quot_pos; lia.
Qed.

Lemma dyadic_sign (f : spec_float) (N E : Z) :
  is_dyadic f N E -> (0 <= N -> not_negative f) /\ (N <= 0 -> not_positive f).
Proof.
  intros H. destruct f as [s | s | | s m e]; try (split; intros _; exact I).
  pose proof (is_dyadic_sign s m e N E H) as Hs.
  destruct H as [He Hm].
  assert (Hp : 0 < 2 ^ (E - e)) by (apply pow2_pos; lia).
  destruct s; cbn [not_negative not_positive cond_Zopp] in *; split; intros HN;
    try exact I; nia.
Qed.

(** One axis: the angle and its opposite, their sign and their size. *)
Lemma axis (center size : Z) :
  0 < size < 2 ^ 31 -> Z.abs center < 2 ^ 32 ->
  exists err,
    error_of center size = Ret err /\
    fin_of err = Ret (trunc (PyFloat.mul err f30)) /\
    fin_of (PyFloat.neg err) = Ret (- trunc (PyFloat.mul err f30)) /\
    (size <= 2 * center -> 0 <= trunc (PyFloat.mul err f30)) /\
    (2 * center <= size -> trunc (PyFloat.mul err f30) <= 0) /\
    (forall K, 0 < K < 2 ^ 49 -> Z.abs (2 * center - size) <= K * size ->
       Z.abs (trunc (PyFloat.mul err f30)) <= 30 * K).
Proof.
  intros Hs Hc.
  assert (H31 : 2 ^ 31 < 2 ^ 53) by reflexivity.
  assert (H32 : 2 ^ 32 + 2 ^ 32 + 2 ^ 31 < 2 ^ 53) by reflexivity.
  destruct (error_of_steps center size ltac:(lia) ltac:(lia) ltac:(lia))
    as (c & m & e & _ & _ & He & Hdd & Hdh).
  eexists. split; [ exact He | ].
  set (d := PyFloat.sub c (S754_finite false m e)) in *.
  set (err := SFdiv PyFloat.prec PyFloat.emax d (S754_finite false m e)).
  assert (Hb : is_bounded err 1 53).
  { apply div_bounded with (N := 2 * center - size) (D := size) (E := -1);
      try assumption; try lia; try repr. }
  assert (HB : representable (15 * 1) (53 + 1)) by repr.
  destruct (fin_of_bounded err 1 53 Hb HB ltac:(lia)) as [Hf _].
  split; [ exact Hf | ].
  split; [ rewrite fin_of_neg, Hf; reflexivity | ].
  destruct (dyadic_sign d _ _ Hdd) as [Hd1 Hd2].
  destruct (div_sign d m e) as [Hq1 Hq2]. fold err in Hq1, Hq2.
  destruct (mul30_sign err) as [Hm1 Hm2].
  destruct (trunc_sign (PyFloat.mul err f30)) as [Ht1 Ht2].
  split; [ intros H; apply Ht1, Hm1, Hq1, Hd1; lia | ].
  split; [ intros H; apply Ht2, Hm2, Hq2, Hd2; lia | ].
  intros K HK Hle.
  assert (HbK : is_bounded err K 0).
  { apply div_bounded with (N := 2 * center - size) (D := size) (E := -1);
      try assumption; try lia; repr. }
  assert (HBK : representable (15 * K) (0 + 1)).
  { unfold representable. change (2 ^ 53) with (16 * 2 ^ 49). lia. }
  destruct (fin_of_bounded err K 0 HbK HBK ltac:(lia)) as [_ Hbound].
  change (2 ^ (0 + 1)) with 2 in Hbound. lia.
Qed.

Lemma fins_axes (center_x center_y fw fh : Z) (ex ey : spec_float) (r b : Z) :
  error_of center_x fw = Ret ex -> error_of center_y fh = Ret ey ->
  fin_of ex = Ret r -> fin_of (PyFloat.neg ex) = Ret (- r) ->
  fin_of ey = Ret b -> fin_of (PyFloat.neg ey) = Ret (- b) ->
  fins center_x center_y fw fh = Ret (- r, r, - b, b).
Proof.
  intros Hex Hey Hr Hl Hb Ht. unfold fins. rewrite Hex, Hey. cbn [res_bind].
  rewrite Hl, Hr, Ht, Hb. reflexivity.
Qed.

(** X15.  The sign convention of the four fins.  For every box a tracker
    can report, the right and bottom angles have the sign of the offset of
    the centre from the middle of the frame (not negative when the centre
    is to the right of, or below, the middle; not positive when it is to the
    left or above), and the left and top angles are their opposites. *)
Theorem fins_follow_the_offset (center_x center_y fw fh : Z) :
  0 < fw < 2 ^ 31 -> 0 < fh < 2 ^ 31 ->
  Z.abs center_x < 2 ^ 32 -> Z.abs center_y < 2 ^ 32 ->
  exists r b,
    fins center_x center_y fw fh = Ret (- r, r, - b, b) /\
    (fw <= 2 * center_x -> 0 <= r) /\ (2 * center_x <= fw -> r <= 0) /\
    (fh <= 2 * center_y -> 0 <= b) /\ (2 * center_y <= fh -> b <= 0).
Proof.
  intros Hw Hh Hx Hy.
  destruct (axis center_x fw Hw Hx) as (ex & Hex & Hr & Hl & Hr1 & Hr2 & _).
  destruct (axis center_y fh Hh Hy) as (ey & Hey & Hb & Ht & Hb1 & Hb2 & _).
  exists (trunc (PyFloat.mul ex f30)), (trunc (PyFloat.mul ey f30)).
  split; [ apply (fins_axes _ _ _ _ ex ey); assumption | ].
  repeat (split; [ assumption | ]). assumption.
Qed.

Lemma fins_follow_the_offset_witness :
  exists r b,
    fins 352 100 640 480 = Ret (- r, r, - b, b) /\
    (640 <= 2 * 352 -> 0 <= r) /\ (2 * 352 <= 640 -> r <= 0) /\
    (480 <= 2 * 100 -> 0 <= b) /\ (2 * 100 <= 480 -> b <= 0).
Proof.
  apply (fins_follow_the_offset 352 100 640 480); split; reflexivity.
Defined.

(** X16.  The angles grow at most linearly with the offset: a centre within
    [K] half-widths of the middle gives horizontal angles of at most [30 K]
    degrees, and likewise vertically.  With [K = 1] this is the limit of
    [MAX_DEFLECTION] inside the frame; outside of it the limit is passed. *)
Theorem fins_grow_linearly (center_x center_y fw fh Kx Ky : Z) :
  0 < fw < 2 ^ 31 -> 0 < fh < 2 ^ 31 ->
  Z.abs center_x < 2 ^ 32 -> Z.abs center_y < 2 ^ 32 ->
  0 < Kx < 2 ^ 49 -> 0 < Ky < 2 ^ 49 ->
  Z.abs (2 * center_x - fw) <= Kx * fw ->
  Z.abs (2 * center_y - fh) <= Ky * fh ->
  exists l r t b,
    fins center_x center_y fw fh = Ret (l, r, t, b) /\
    Z.abs l <= 30 * Kx /\ Z.abs r <= 30 * Kx /\
    Z.abs t <= 30 * Ky /\ Z.abs b <= 30 * Ky.
Proof.
  intros Hw Hh Hx Hy HKx HKy Hox Hoy.
  destruct (axis center_x fw Hw Hx) as (ex & Hex & Hr & Hl & _ & _ & Hbx).
  destruct (axis center_y fh Hh Hy) as (ey & Hey & Hb & Ht & _ & _ & Hby).
  specialize (Hbx Kx HKx Hox). specialize (Hby Ky HKy Hoy).
  do 4 eexists. split; [ apply (fins_axes _ _ _ _ ex ey); eassumption | ].
  rewrite !Z.abs_opp. repeat (split; [ assumption | ]). assumption.
Qed.

Lemma fins_grow_linearly_witness :
  exists l r t b,
    fins 1600 (-480) 640 480 = Ret (l, r, t, b) /\
    Z.abs l <= 30 * 4 /\ Z.abs r <= 30 * 4 /\
    Z.abs t <= 30 * 3 /\ Z.abs b <= 30 * 3.
Proof.
  apply (fins_grow_linearly 1600 (-480) 640 480 4 3);
    first [ split; reflexivity | reflexivity | (cbn; lia) ].
Defined.

(* ================================================================== *)
(** ** The line sent to the fins                                       *)
(* ================================================================== *)

Lemma has_char_app (c : ascii) (s1 s2 : string) :
  has_char c (s1 ++ s2) = has_char c s1 || has_char c s2.
Proof.
  induction s1 as [ | a s1 IH]; cbn; [ reflexivity | ].
  rewrite IH, orb_assoc. reflexivity.
Qed.

Lemma uint_chars (c : ascii) (d : Decimal.uint) :
  digit_or_minus c = false -> has_char c (NilEmpty.string_of_uint d) = false.
Proof.
  intros Hc.
  induction d; cbn [NilEmpty.string_of_uint has_char]; [ reflexivity | .. ];
    rewrite IHd, orb_false_r; apply Ascii.eqb_neq; intros <-; discriminate Hc.
Qed.

(** [str] of an int holds digits and at most a sign. *)
Lemma py_str_chars (c : ascii) (z : Z) :
  digit_or_minus c = false -> has_char c (py_str z) = false.
Proof.
  intros Hc. unfold py_str, NilZero.string_of_int, NilZero.string_of_uint.
  assert (H0 : has_char c "0" = false).
  { cbn [has_char]. rewrite orb_false_r. apply Ascii.eqb_neq. intros <-. discriminate Hc. }
  assert (Hm : Ascii.eqb "-" c = false) by (apply Ascii.eqb_neq; intros <-; discriminate Hc).
  destruct (Z.to_int z) as [d | d]; cbn [has_char]; rewrite ?Hm; cbn [orb];
    destruct d; try exact H0; apply uint_chars, Hc.
Qed.

Lemma py_str_inj (a b : Z) : py_str a = py_str b -> a = b.
Proof.
  intros H. apply DecimalZ.to_int_inj.
  assert (Hn : forall z, Z.to_int z <> Decimal.Pos Decimal.Nil /\
                         Z.to_int z <> Decimal.Neg Decimal.Nil).
  { intros [ | p | p]; cbn; split; try discriminate;
      intros [= Hp]; exact (DecimalPos.Unsigned.to_uint_nonnil p Hp). }
  assert (Hs : Some (Z.to_int a) = Some (Z.to_int b)).
  { rewrite <- (NilZero.isi (Z.to_int a)) by apply Hn.
    rewrite <- (NilZero.isi (Z.to_int b)) by apply Hn.
    unfold py_str in H. rewrite H. reflexivity. }
  injection Hs as Hs. exact Hs.
Qed.

(** Two texts cut at the first separator. *)
Lemma cut_at (c : ascii) (s1 s2 r1 r2 : string) :
  has_char c s1 = false -> has_char c s2 = false ->
  (s1 ++ String c r1 = s2 ++ String c r2)%string -> s1 = s2 /\ r1 = r2.
Proof.
  revert s2. induction s1 as [ | a s1 IH]; intros [ | b s2] H1 H2 H;
    cbn [has_char append] in *.
  - injection H as ->. auto.
  - injection H as -> _. rewrite Ascii.eqb_refl in H2. discriminate.
  - injection H as -> _. rewrite Ascii.eqb_refl in H1. discriminate.
  - injection H as -> H. apply orb_false_elim in H1, H2.
    destruct (IH s2 (proj2 H1) (proj2 H2) H) as [-> ->]. auto.
Qed.

(** X17.  The line written to the port determines the four angles: two
    different commands are never sent as the same text. *)
Theorem command_injective (l r t b l' r' t' b' : Z) :
  command l r t b = command l' r' t' b' ->
  l = l' /\ r = r' /\ t = t' /\ b = b'.
Proof.
  unfold command. cbn [append]. intros H. injection H as H.
  apply cut_at in H; try (apply py_str_chars; reflexivity). destruct H as [Hl H].
  apply cut_at in H; try (apply py_str_chars; reflexivity). destruct H as [Hr H].
  apply cut_at in H; try (apply py_str_chars; reflexivity). destruct H as [Ht H].
  apply cut_at in H; try (apply py_str_chars; reflexivity). destruct H as [Hb _].
  repeat split; apply py_str_inj; assumption.
Qed.

Lemma command_injective_witness :
  14 = 14 /\ -14 = -14 /\ 23 = 23 /\ -23 = -23.
Proof. exact (command_injective 14 (-14) 23 (-23) 14 (-14) 23 (-23) eq_refl). Defined.

Lemma str_app_assoc (s1 s2 s3 : string) : ((s1 ++ s2) ++ s3 = s1 ++ (s2 ++ s3))%string.
Proof. induction s1 as [ | a s1 IH]; cbn; [ reflexivity | rewrite IH; reflexivity ]. Qed.

(** X18.  Every command is one line in brackets: an opening bracket, a body
    without brackets or line ends, a closing bracket and the line end.  So
    a reader can cut the stream of commands at the line ends. *)
Theorem command_is_one_line (l r t b : Z) :
  exists body,
    command l r t b = ("<" ++ body ++ ">" ++ newline)%string /\
    has_char "<" body = false /\ has_char ">" body = false /\
    has_char (ascii_of_nat 10) body = false /\ has_char (ascii_of_nat 13) body = false.
Proof.
  exists (py_str l ++ "," ++ py_str r ++ "," ++ py_str t ++ "," ++ py_str b)%string.
  split.
  - unfold command. rewrite !str_app_assoc. reflexivity.
  - rewrite !has_char_app.
    repeat split; rewrite !py_str_chars by reflexivity; reflexivity.
Qed.

(* ================================================================== *)
(** ** Single passes                                                   *)
(* ================================================================== *)

(** X20.  A pass that begins without tracking never raises, asks the
    tracker nothing and sends nothing, whatever the pointer does during it;
    a selection completed in it takes effect on the next pass. *)
Theorem idle_pass_is_quiet (i : iter_input) (g : globals) :
  tracking_active g = false ->
  (exists stop, result_of (iteration i g) = Ret stop) /\
  Forall quiet (trace_of (iteration i g)).
Proof.
  intros Ha. destruct (grabbed i) as [fr | ] eqn:Hg.
  - pose proof (track_inactive g fr (update i) Ha) as Ht.
    pose proof (iteration_run i fr g Hg) as Hrun. rewrite Ht in Hrun.
    specialize (Hrun eq_refl). cbv zeta in Hrun. rewrite Hrun.
    split; [ eexists; reflexivity | ].
    unfold trace_of, state_of. cbn [fst snd app].
    apply Forall_app. split; [ exact (proj2 (overlays_quiet g I)) | ].
    constructor; [ split; reflexivity | ].
    exact (proj2 (deliver_quiet (events i) {| frame := Some fr |} g I)).
  - unfold iteration. rewrite Hg. split; [ eexists; reflexivity | ].
    repeat constructor.
Qed.

Lemma idle_pass_is_quiet_witness :
  (exists stop,
     result_of (iteration {| grabbed := Some vga; update := (true, box 10 10 40 40);
                             events := [press (50, 50); release (10, 10)];
                             key_code := -1 |} initial_globals) = Ret stop) /\
  Forall quiet
    (trace_of (iteration {| grabbed := Some vga; update := (true, box 10 10 40 40);
                            events := [press (50, 50); release (10, 10)];
                            key_code := -1 |} initial_globals)).
Proof.
  exact (idle_pass_is_quiet
           {| grabbed := Some vga; update := (true, box 10 10 40 40);
              events := [press (50, 50); release (10, 10)]; key_code := -1 |}
           initial_globals eq_refl).
Defined.

Lemma callback_after_show (fr : Frame) (event x y flags : Z) :
  obeys (fun _ => True) (after_show fr)
    (select_roi_callback event x y flags {| frame := Some fr |}).
Proof.
  unfold select_roi_callback, init_tracker, unpack. cbn [frame].
  repeat obeys_step.
Qed.

(** X21.  The order of a pass: everything drawn on the frame is drawn
    before the frame is shown, and a tracker is only ever initialised after
    that, with the image captured in this very pass. *)
Theorem drawing_precedes_selection (i : iter_input) (fr : Frame) (g : globals) :
  grabbed i = Some fr ->
  result_of (track fr (update i) g) = Ret tt ->
  exists pre post,
    trace_of (iteration i g) = pre ++ ImShow fr :: post /\
    Forall (fun e => is_init e = false) pre /\
    Forall (after_show fr) post.
Proof.
  intros Hg Ht.
  pose proof (iteration_run i fr g Hg Ht) as Hrun. cbv zeta in Hrun.
  exists (trace_of (track fr (update i) g) ++
          trace_of (overlays (state_of (track fr (update i) g)))),
         (trace_of (deliver (events i) {| frame := Some fr |}
                      (state_of (track fr (update i) g)))).
  split; [ rewrite Hrun; unfold trace_of at 1; cbn [snd]; rewrite app_assoc; reflexivity | ].
  split.
  - apply Forall_app. split.
    + destruct (track_cases g fr (update i))
        as [H | [H | [(e & H) | (l & r & t & b & o & Ho & H)]]]; rewrite H;
        unfold trace_of; cbn [snd]; repeat constructor.
      apply Forall_app. split.
      * destruct (is_some (ser g)); repeat constructor.
      * eapply Forall_impl; [ | exact Ho ]. intros e He. destruct e; try contradiction;
          reflexivity.
    + assert (Ho : obeys (fun _ => True) (fun e => is_init e = false) overlays)
        by (unfold overlays; repeat obeys_step).
      apply Ho. exact I.
  - apply (deliver_obeys (fun _ => True) (after_show fr)); [ intros e; exact I | | exact I ].
    intros. apply callback_after_show.
Qed.

Lemma drawing_precedes_selection_witness :
  exists pre post,
    trace_of (iteration {| grabbed := Some vga; update := (true, box 10 10 40 40);
                           events := [press (50, 50); release (10, 10)]; key_code := -1 |}
                initial_globals) = pre ++ ImShow vga :: post /\
    Forall (fun e => is_init e = false) pre /\
    Forall (after_show vga) post.
Proof.
  exact (drawing_precedes_selection
           {| grabbed := Some vga; update := (true, box 10 10 40 40);
              events := [press (50, 50); release (10, 10)]; key_code := -1 |}
           vga initial_globals eq_refl eq_refl).
Defined.

(** X22.  On the pass where tracking is lost the idle hint is drawn as
    well, over the lost message: both texts go to the same place of the same
    frame. *)
Theorem lost_pass_shows_the_hint (g : globals) (i : iter_input) (fr : Frame) (bb : raw_bbox) :
  well_formed g -> tracking_active g = true ->
  grabbed i = Some fr -> update i = (false, bb) ->
  exists post,
    trace_of (iteration i g) =
      [TrackerUpdate fr;
       PutText "TRACKING LOST - Draw new box" (10, 30) RED;
       PutText "Click and drag to select object" (10, 30) CYAN;
       ImShow fr] ++ post.
Proof.
  intros [Hwf _] Ha Hg Hu. destruct (Hwf Ha) as [Hs Hd].
  destruct (tracker g) as [t | ] eqn:Ht; [ | discriminate ].
  pose proof (track_lost g fr bb t Ha Ht) as Htr. rewrite <- Hu in Htr.
  pose proof (iteration_run i fr g Hg) as Hrun. rewrite Htr in Hrun.
  specialize (Hrun eq_refl). cbv zeta in Hrun. rewrite Hrun.
  assert (Ho : snd (overlays (set_tracking_active false g)) =
               [PutText "Click and drag to select object" (10, 30) CYAN]).
  { clear - Hd. destruct g as [d sp ep tr ta s]. cbn in Hd. subst d.
    destruct sp, ep; reflexivity. }
  unfold trace_of, state_of. cbn [fst snd app]. rewrite Ho.
  eexists. reflexivity.
Qed.

Lemma lost_pass_shows_the_hint_witness :
  exists post,
    trace_of (iteration {| grabbed := Some vga; update := (false, box 0 0 0 0);
                           events := []; key_code := -1 |} tracking0) =
      [TrackerUpdate vga;
       PutText "TRACKING LOST - Draw new box" (10, 30) RED;
       PutText "Click and drag to select object" (10, 30) CYAN;
       ImShow vga] ++ post.
Proof.
  refine (lost_pass_shows_the_hint tracking0
            {| grabbed := Some vga; update := (false, box 0 0 0 0);
               events := []; key_code := -1 |} vga (box 0 0 0 0) _ eq_refl eq_refl eq_refl).
  split; cbn; intros H; [ split; reflexivity | discriminate H ].
Defined.

(* ================================================================== *)
(** ** Trackers and frames                                             *)
(* ================================================================== *)

Lemma balanced_ret {A} (a : A) : balanced (ret a).
Proof. intros g. reflexivity. Qed.

Lemma balanced_raise {A} (e : exn) : balanced (@raise A e).
Proof. intros g. reflexivity. Qed.

Lemma balanced_lift {A} (r : res A) : balanced (lift r).
Proof. intros g. reflexivity. Qed.

Lemma balanced_gets {A} (f : globals -> A) : balanced (gets f).
Proof. intros g. reflexivity. Qed.

Lemma balanced_modify (f : globals -> globals) : balanced (modify f).
Proof. intros g. reflexivity. Qed.

Lemma balanced_emit (e : effect) :
  is_create e = false -> is_init e = false -> balanced (emit e).
Proof. intros Hc Hi g. unfold emit, trace_of, count. cbn. rewrite Hc, Hi. reflexivity. Qed.

Lemma balanced_bind {A B} (m : M A) (k : A -> M B) :
  balanced m -> (forall a, balanced (k a)) -> balanced (bind m k).
Proof.
  intros Hm Hk g. rewrite trace_bind, !count_app, (Hm g).
  destruct (result_of (m g)) as [a | e]; [ rewrite (Hk a) | ]; reflexivity.
Qed.

Lemma balanced_guarded (m : M unit) : balanced m -> balanced (guarded m).
Proof.
  intros Hm g. specialize (Hm g). unfold guarded, trace_of in *.
  destruct (m g) as [[[[] | e] g1] o1]; cbn [snd] in *; [ exact Hm | ].
  rewrite !count_app, Hm. reflexivity.
Qed.

Ltac balanced_step :=
  match goal with
  | |- balanced (bind _ _) => apply balanced_bind; [ | intros ? ]
  | |- balanced (ret _) => apply balanced_ret
  | |- balanced (raise _) => apply balanced_raise
  | |- balanced (lift _) => apply balanced_lift
  | |- balanced (emit _) => apply balanced_emit; reflexivity
  | |- balanced (gets _) => apply balanced_gets
  | |- balanced (modify _) => apply balanced_modify
  | |- balanced (guarded _) => apply balanced_guarded
  | |- balanced (match ?x with _ => _ end) => destruct x
  | |- balanced (let '(_, _) := ?x in _) => destruct x
  end.

(** With a frame at hand a tracker is created and its [init] called, whether
    or not [init] then raises. *)
Lemma init_tracker_balanced (f : Frame) (bbox : BBox) : balanced (init_tracker (Some f) bbox).
Proof.
  intros g. unfold init_tracker, bind, emit, modify, raise, trace_of, count. cbn.
  destruct (csrt_accepts f bbox); reflexivity.
Qed.

Lemma callback_balanced (fr : Frame) (event x y flags : Z) :
  balanced (select_roi_callback event x y flags {| frame := Some fr |}).
Proof.
  unfold select_roi_callback, unpack. cbn [frame].
  repeat (first [ apply init_tracker_balanced | balanced_step ]).
Qed.

Lemma deliver_balanced (fr : Frame) (evs : list pointer_event) :
  balanced (deliver evs {| frame := Some fr |}).
Proof.
  induction evs as [ | [[[event x] y] flags] rest IH]; cbn [deliver].
  - apply balanced_ret.
  - apply balanced_bind; [ | intros _; exact IH ].
    apply balanced_guarded, callback_balanced.
Qed.

Lemma loop_balanced (its : list iter_input) : balanced (loop its).
Proof.
  induction its as [ | i rest IH]; cbn [loop]; [ apply balanced_ret | ].
  apply balanced_bind; [ | intros [ | ]; [ apply balanced_ret | exact IH ] ].
  unfold iteration, waitKey, overlays, reset, track, draw_crosshair.
  destruct (grabbed i) as [fr | ];
    repeat (first [ apply deliver_balanced | balanced_step ]).
Qed.

(** X23.  A tracker that is created is always handed an image: in every run
    [tracker.init] is called exactly as often as [cv2.TrackerCSRT_create],
    because the callback only ever runs with the frame of the current pass
    in [param], never with the [None] of line 88. *)
Theorem created_trackers_get_a_frame (w : world) (g : globals) :
  count is_create (trace_of (main w g)) = count is_init (trace_of (main w g)).
Proof.
  assert (H : balanced (main w)).
  { unfold main, serial_init, camera_loop.
    repeat (first [ apply loop_balanced | balanced_step ]). }
  exact (H g).
Qed.
